(** * RFM scoring, filtering and grid bucketing

    A shallow embedding of [utils/mockData.ts] and [utils/rfmCalculator.ts]
    (the generator, the percentile scorer, the filter and the grid
    bucketizer), with the properties stated about them.

    Numbers.  Every dimension value the repository produces is an integer
    ([Math.floor(...) + k] in the generator, integer literals in
    [sampleRFMData]), and so is every score; they are modelled as [Z].  The
    only fractional quantity is the percentile [index / (length - 1)].  It is
    modelled as an exact canonical rational ([Qc]), and the literals [0.2],
    [0.4], [0.6], [0.8] as [1/5] ... [4/5].  The double the program computes
    is the rounding of that rational, and the literal [0.2] is the rounding
    of [1/5]; rounding is monotone, and two distinct quotients [i/(n-1)] and
    [k/5] differ by at least [1/(5(n-1))], far more than one unit in the last
    place for any array length, so every comparison [percentile <= 0.k] has
    the same outcome on the doubles and on the rationals. *)

From Stdlib Require Import QArith Qcanon Qround Lqa Ascii String.
From stdpp Require Import base decidable numbers list sorting strings pretty gmap fin_maps.

Local Open Scope Z_scope.

(** ** JavaScript numbers, as far as the scorer uses them *)

Inductive number : Type :=
| Finite (q : Qc)
| PosInfinity
| NegInfinity
| NaN.

#[global] Instance number_eq_dec : EqDecision number.
Proof. solve_decision. Defined.

(** [a / b] on integer-valued operands: a zero divisor gives an infinity or
    [NaN], never an exception. *)
Definition js_div (a b : Z) : number :=
  if decide (b = 0) then
    if decide (a = 0) then NaN
    else if decide (0 < a) then PosInfinity else NegInfinity
  else Finite (Qc_of_Z a / Qc_of_Z b)%Qc.

(** [a <= b]: false as soon as one side is [NaN]. *)
Definition js_le (a b : number) : bool :=
  match a, b with
  | NaN, _ | _, NaN => false
  | NegInfinity, _ => true
  | _, PosInfinity => true
  | PosInfinity, _ => false
  | _, NegInfinity => false
  | Finite x, Finite y => bool_decide (x ≤ y)%Qc
  end.

Definition num_0 : number := Finite (Qc_of_Z 0).
Definition num_1 : number := Finite (Qc_of_Z 1).
(** The literals [0.2], [0.4], [0.6], [0.8] are [fifth 1] ... [fifth 4]. *)
Definition fifth (k : Z) : Qc := (Qc_of_Z k / Qc_of_Z 5)%Qc.
Definition fifths (k : Z) : number := Finite (fifth k).

(** ** Array helpers *)

(** [Array.prototype.findIndex]: the first position whose element satisfies
    the predicate, [-1] when there is none. *)
Fixpoint findIndex_from {A : Type} (p : A → bool) (l : list A) (i : Z) : Z :=
  match l with
  | [] => -1
  | a :: l' => if p a then i else findIndex_from p l' (i + 1)
  end.

Definition findIndex {A : Type} (p : A → bool) (l : list A) : Z :=
  findIndex_from p l 0.

(** [[...array].sort((a, b) => a - b)]: a fresh array, ascending.  On
    integers the ascending arrangement is unique, so the result does not
    depend on the engine's sorting algorithm. *)
Definition sort_ascending (array : list Z) : list Z := merge_sort Z.le array.

(** ** The scorer *)

Definition calculatePercentile (value : Z) (array : list Z) : number :=
  let sortedArray := sort_ascending array in
  let index := findIndex (λ item, bool_decide (value ≤ item)) sortedArray in
  if decide (index = -1) then num_1
  else if decide (index = 0) then num_0
  else js_div index (Z.of_nat (length sortedArray) - 1).

Definition percentileToScore (percentile : number) (isRecency : bool) : Z :=
  let score :=
    if js_le percentile (fifths 1) then 1
    else if js_le percentile (fifths 2) then 2
    else if js_le percentile (fifths 3) then 3
    else if js_le percentile (fifths 4) then 4
    else 5 in
  if isRecency then 6 - score else score.

Module RFMData.
Record t : Type := mk
  { id : string; recency : Z; frequency : Z; monetary : Z }.
End RFMData.

Module RFMScore.
Record t : Type := mk
  { id : string;
    recencyScore : Z;
    frequencyScore : Z;
    monetaryScore : Z;
    x : Z;
    y : Z }.
End RFMScore.

Definition calculateRFMScores (data : list RFMData.t) : list RFMScore.t :=
  let recencyValues := map RFMData.recency data in
  let frequencyValues := map RFMData.frequency data in
  let monetaryValues := map RFMData.monetary data in
  map (λ item,
    let recencyPercentile := calculatePercentile (RFMData.recency item) recencyValues in
    let frequencyPercentile := calculatePercentile (RFMData.frequency item) frequencyValues in
    let monetaryPercentile := calculatePercentile (RFMData.monetary item) monetaryValues in
    let recencyScore := percentileToScore recencyPercentile true in
    let frequencyScore := percentileToScore frequencyPercentile false in
    let monetaryScore := percentileToScore monetaryPercentile false in
    {| RFMScore.id := RFMData.id item;
       RFMScore.recencyScore := recencyScore;
       RFMScore.frequencyScore := frequencyScore;
       RFMScore.monetaryScore := monetaryScore;
       RFMScore.x := frequencyScore;
       RFMScore.y := monetaryScore |}) data.

Definition sampleRFMData : list RFMData.t :=
  [ RFMData.mk "CUST_001" 15 25 8500;
    RFMData.mk "CUST_002" 120 8 3200;
    RFMData.mk "CUST_003" 45 15 5200;
    RFMData.mk "CUST_004" 300 3 800;
    RFMData.mk "CUST_005" 7 30 12000;
    RFMData.mk "CUST_006" 180 5 1500;
    RFMData.mk "CUST_007" 30 18 6800;
    RFMData.mk "CUST_008" 250 2 400;
    RFMData.mk "CUST_009" 10 28 9500;
    RFMData.mk "CUST_010" 90 12 4200;
    RFMData.mk "CUST_011" 365 1 100;
    RFMData.mk "CUST_012" 5 35 15000;
    RFMData.mk "CUST_013" 60 10 3800;
    RFMData.mk "CUST_014" 200 4 1200;
    RFMData.mk "CUST_015" 20 22 7800;
    RFMData.mk "CUST_016" 150 6 2100;
    RFMData.mk "CUST_017" 40 16 5500;
    RFMData.mk "CUST_018" 280 2 600;
    RFMData.mk "CUST_019" 12 26 8800;
    RFMData.mk "CUST_020" 100 9 3500 ].

(** ** The filter *)

Module Filters.
(** [{ recency?: number; frequency?: number; monetary?: number }]: a missing
    field is [None]. *)
Record t : Type := mk
  { recency : option Z; frequency : option Z; monetary : option Z }.
End Filters.

(** [threshold && score < threshold]: a missing threshold and the threshold
    [0] are falsy, so the comparison is not even made. *)
Definition belowThreshold (threshold : option Z) (score : Z) : bool :=
  match threshold with
  | None => false
  | Some t => if decide (t = 0) then false else bool_decide (score < t)
  end.

Definition filterRFMScores (scores : list RFMScore.t) (filters : Filters.t)
    : list RFMScore.t :=
  List.filter (λ score,
    if belowThreshold (Filters.recency filters) (RFMScore.recencyScore score) then false
    else if belowThreshold (Filters.frequency filters) (RFMScore.frequencyScore score) then false
    else if belowThreshold (Filters.monetary filters) (RFMScore.monetaryScore score) then false
    else true) scores.

(** ** The grid *)

Record GridCell : Type := mkCell
  { count : Z; items : list RFMScore.t }.

(** The template literal [`${x}-${y}`] on integer-valued numbers. *)
Definition cellKey (x y : Z) : string := pretty x +:+ "-" +:+ pretty y.

Definition initGrid : gmap string GridCell :=
  foldl (λ grid x,
    foldl (λ grid y, <[cellKey x y := mkCell 0 []]> grid) grid (seqZ 1 5))
    ∅ (seqZ 1 5).

(** One turn of the [forEach]: the cell of the score's key, when the grid
    has it, gets its count incremented and the score pushed.  A key always
    contains a dash, which no property inherited from [Object.prototype]
    does, so [grid[key]] only ever finds the grid's own cells. *)
Definition populate (grid : gmap string GridCell) (score : RFMScore.t)
    : gmap string GridCell :=
  let key := cellKey (RFMScore.x score) (RFMScore.y score) in
  match grid !! key with
  | Some cell => <[key := mkCell (count cell + 1) (items cell ++ [score])]> grid
  | None => grid
  end.

Definition getGridData (scores : list RFMScore.t) : gmap string GridCell :=
  foldl populate initGrid scores.

(** ** The generator *)

(** The values [Math.random()] returns, call after call. *)
Definition RandomSource : Type := nat → Q.

(** Every draw lies in [[0, 1)]. *)
Definition unitDraws (src : RandomSource) : Prop :=
  ∀ n, (0 <= src n)%Q ∧ (src n < 1)%Q.

(** Computations that draw random numbers; [None] stands for an array write
    outside the bounds of the array, which would leave a hole or a record
    without its fields. *)
Definition Rand (A : Type) : Type := RandomSource → option (A * RandomSource).

Definition ret {A : Type} (a : A) : Rand A := λ src, Some (a, src).

Definition bind {A B : Type} (m : Rand A) (k : A → Rand B) : Rand B :=
  λ src, match m src with
         | Some (a, src') => k a src'
         | None => None
         end.

Definition outOfBounds {A : Type} : Rand A := λ _, None.

Notation "'let*' x ':=' m 'in' k" := (bind m (λ x, k))
  (at level 10, x name, m at level 100, k at level 200).

Definition Math_random : Rand Q := λ src, Some (src 0%nat, λ n, src (S n)).

(** [Math.floor(Math.random() * k)].  The product is exact here and rounded
    in the program; rounding is monotone and the largest double below 1
    times [k] still rounds to a double below [k], so both range over
    [0 .. k-1]. *)
Definition randomBelow (k : Z) : Rand Z :=
  let* r := Math_random in ret (Qfloor (r * inject_Z k)).

(** A counting [for] loop of [n] turns whose variable starts at [i]. *)
Fixpoint forLoop {S : Type} (n : nat) (body : Z → S → Rand S) (i : Z) (s : S)
    : Rand S :=
  match n with
  | O => ret s
  | Datatypes.S n' => (let* s' := body i s in forLoop n' body (i + 1) s')
  end.

Fixpoint repeatChar (n : nat) (c : ascii) : string :=
  match n with
  | O => EmptyString
  | Datatypes.S n' => String c (repeatChar n' c)
  end.

(** [s.padStart(targetLength, c)] for a one-character pad string. *)
Definition padStart (targetLength : nat) (c : ascii) (s : string) : string :=
  repeatChar (targetLength - String.length s) c +:+ s.

Definition customerId (i : Z) : string :=
  "CUST_" +:+ padStart 3 "0"%char (pretty i).

(** [data[index] = { ...data[index], <fields> }]. *)
Definition overwriteAt (data : list RFMData.t) (index : Z)
    (update : RFMData.t → RFMData.t) : Rand (list RFMData.t) :=
  if decide (0 ≤ index) then
    match data !! Z.to_nat index with
    | Some r => ret (<[Z.to_nat index := update r]> data)
    | None => outOfBounds
    end
  else outOfBounds.

Definition baseRecord (i : Z) (data : list RFMData.t) : Rand (list RFMData.t) :=
  let id := customerId i in
  let* r := randomBelow 365 in
  let* f := randomBelow 50 in
  let* m := randomBelow 9990 in
  ret (data ++ [RFMData.mk id (r + 1) (f + 1) (m + 10)]).

Definition vipOverwrite (i : Z) (data : list RFMData.t) : Rand (list RFMData.t) :=
  let* index := randomBelow (Z.of_nat (length data)) in
  let* f := randomBelow 20 in
  let* m := randomBelow 5000 in
  overwriteAt data index (λ r,
    RFMData.mk (RFMData.id r) (RFMData.recency r) (f + 30) (m + 5000)).

Definition inactiveOverwrite (i : Z) (data : list RFMData.t) : Rand (list RFMData.t) :=
  let* index := randomBelow (Z.of_nat (length data)) in
  let* r := randomBelow 100 in
  let* f := randomBelow 5 in
  let* m := randomBelow 500 in
  overwriteAt data index (λ old,
    RFMData.mk (RFMData.id old) (r + 300) (f + 1) (m + 10)).

(** [Math.floor(count * 0.05)] and [Math.floor(count * 0.1)] are [count / 20]
    and [count / 10] rounded down: the literals exceed [1/20] and [1/10] by
    less than [1e-17], too little to carry the product over the next
    integer and never enough to drop it under an integer it has reached. *)
Definition generateMockRFMData (count : Z) : Rand (list RFMData.t) :=
  let* data := forLoop (Z.to_nat count) baseRecord 1 [] in
  let* data := forLoop (Z.to_nat (count / 20)) vipOverwrite 0 data in
  forLoop (Z.to_nat (count / 10)) inactiveOverwrite 0 data.

Definition demoSource : RandomSource :=
  λ n, (Z.of_nat ((n * 37 + 11) mod 101) # 101)%Q.

(** ** Specification-level notions *)

(** A position is the first hit of a predicate when the predicate holds there
    and nowhere before. *)
Definition firstHit {A : Type} (p : A → bool) (l : list A) (k : nat) : Prop :=
  (∃ a, l !! k = Some a ∧ p a = true) ∧
  ∀ j b, (j < k)%nat → l !! j = Some b → p b = false.

(** The reference definition of the percentile rank, in the specification's
    words: "sort all values ascending; find the first position [i]
    (0-based) whose value is >= v; percentile = 0 if [i == 0]; percentile = 1
    if no such position exists; otherwise percentile = i / (n-1) where n =
    count of values". *)
Definition sortedAscending (values sorted : list Z) : Prop :=
  sorted ≡ₚ values ∧ Sorted Z.le sorted.

Definition firstPositionAtLeast (v : Z) (sorted : list Z) (i : nat) : Prop :=
  (∃ x, sorted !! i = Some x ∧ v ≤ x) ∧
  ∀ j y, (j < i)%nat → sorted !! j = Some y → y < v.

Inductive percentileRank (v : Z) (values : list Z) : number → Prop :=
| rank_zero sorted :
    sortedAscending values sorted →
    firstPositionAtLeast v sorted 0 →
    percentileRank v values (Finite (Qc_of_Z 0))
| rank_one sorted :
    sortedAscending values sorted →
    (∀ i, ¬ firstPositionAtLeast v sorted i) →
    percentileRank v values (Finite (Qc_of_Z 1))
| rank_ratio sorted i :
    sortedAscending values sorted →
    firstPositionAtLeast v sorted i →
    i ≠ 0%nat →
    percentileRank v values
      (Finite (Qc_of_Z (Z.of_nat i) / Qc_of_Z (Z.of_nat (length values) - 1))%Qc).

(** How many values lie strictly below [v]. *)
Definition countBelow (v : Z) (values : list Z) : nat :=
  length (filter (λ x, x < v) values).

(** A scored customer whose three scores lie in [[1, 5]]. *)
Definition scoresInRange (s : RFMScore.t) : Prop :=
  1 ≤ RFMScore.recencyScore s ≤ 5 ∧
  1 ≤ RFMScore.frequencyScore s ≤ 5 ∧
  1 ≤ RFMScore.monetaryScore s ≤ 5.

(** The filter of the specification: every score reaches its threshold. *)
Definition meetsCriteria (r f m : Z) (s : RFMScore.t) : Prop :=
  r ≤ RFMScore.recencyScore s ∧
  f ≤ RFMScore.frequencyScore s ∧
  m ≤ RFMScore.monetaryScore s.

#[global] Instance meetsCriteria_dec r f m s : Decision (meetsCriteria r f m s).
Proof. unfold meetsCriteria. apply _. Defined.

(** A scored customer whose grid coordinates lie in [[1, 5]]. *)
Definition gridInRange (s : RFMScore.t) : Prop :=
  1 ≤ RFMScore.x s ≤ 5 ∧ 1 ≤ RFMScore.y s ≤ 5.

#[global] Instance gridInRange_dec s : Decision (gridInRange s).
Proof. unfold gridInRange. apply _. Defined.

(** The 25 keys ["x-y"], and the key of a scored customer. *)
Definition gridKeys : list string :=
  flat_map (λ x, map (cellKey x) (seqZ 1 5)) (seqZ 1 5).

Definition keyOf (s : RFMScore.t) : string :=
  cellKey (RFMScore.x s) (RFMScore.y s).

(** The input items of cell [(a, b)], in input order. *)
Definition cellItems (a b : Z) (scores : list RFMScore.t) : list RFMScore.t :=
  filter (λ s, RFMScore.x s = a ∧ RFMScore.y s = b) scores.

(** The sum of the counts of all the cells of a grid. *)
Definition totalCount (grid : gmap string GridCell) : Z :=
  map_fold (λ _ cell acc, count cell + acc) 0 grid.

(** The value ranges of a generated record. *)
Definition recordInRange (r : RFMData.t) : Prop :=
  (1 ≤ RFMData.recency r ≤ 365 ∨ 300 ≤ RFMData.recency r ≤ 400) ∧
  1 ≤ RFMData.frequency r ≤ 50 ∧
  10 ≤ RFMData.monetary r ≤ 10000.

(** A computation that, from the source [src], returns a result satisfying
    [Post] and leaves a source that still draws from [[0, 1)]. *)
Definition runsTo {A : Type} (m : Rand A) (src : RandomSource)
    (Post : A → Prop) : Prop :=
  ∃ a src', m src = Some (a, src') ∧ Post a ∧ unitDraws src'.

(** Leading zeros removed. *)
Fixpoint stripZeros (s : string) : string :=
  match s with
  | String c s' => if decide (c = "0"%char) then stripZeros s' else s
  | EmptyString => EmptyString
  end.

(** What the first loop of the generator has built when its variable is [i]. *)
Definition baseInv (i : Z) (data : list RFMData.t) : Prop :=
  1 ≤ i ∧
  RFMData.id <$> data = customerId <$> seqZ 1 (i - 1) ∧
  Forall recordInRange data.

(** What the two overwriting loops keep. *)
Definition overwriteInv (ids : list string) (data : list RFMData.t) : Prop :=
  data ≠ [] ∧
  RFMData.id <$> data = ids ∧
  Forall recordInRange data.

(** A small scored sequence used to exercise the filter and the grid. *)
Definition demoScores : list RFMScore.t :=
  [ RFMScore.mk "CUST_001" 4 4 5 4 5;
    RFMScore.mk "CUST_002" 2 2 2 2 2;
    RFMScore.mk "CUST_003" 3 4 5 4 5;
    RFMScore.mk "CUST_004" 1 1 1 1 1 ].

(** The record [calculateRFMScores] builds for one item, given the three
    arrays of values. *)
Definition scoreRecord (recencyValues frequencyValues monetaryValues : list Z)
    (item : RFMData.t) : RFMScore.t :=
  let frequencyScore :=
    percentileToScore (calculatePercentile (RFMData.frequency item) frequencyValues) false in
  let monetaryScore :=
    percentileToScore (calculatePercentile (RFMData.monetary item) monetaryValues) false in
  RFMScore.mk (RFMData.id item)
    (percentileToScore (calculatePercentile (RFMData.recency item) recencyValues) true)
    frequencyScore monetaryScore frequencyScore monetaryScore.

(** The score of a value with [c] strictly smaller values among [n], in
    integer arithmetic. *)
Definition rankScore (c n : Z) : Z :=
  if decide (5 * c ≤ n - 1) then 1
  else if decide (5 * c ≤ 2 * (n - 1)) then 2
  else if decide (5 * c ≤ 3 * (n - 1)) then 3
  else if decide (5 * c ≤ 4 * (n - 1)) then 4
  else 5.

(** A threshold that is missing or zero is not compared at all. *)
Definition effectiveThreshold (threshold : option Z) : option Z :=
  match threshold with
  | Some 0 => None
  | _ => threshold
  end.

(** ** The grid component ([components/RFMGrid.tsx]) *)

Module RFMGrid.

Record GridCell : Type := mkCell
  { count : Z; items : list RFMScore.t; isSelected : bool }.

Definition initGrid : gmap string GridCell :=
  foldl (λ grid x,
    foldl (λ grid y, <[cellKey x y := mkCell 0 [] false]> grid) grid (seqZ 1 5))
    ∅ (seqZ 1 5).

Definition populate (grid : gmap string GridCell) (score : RFMScore.t)
    : gmap string GridCell :=
  let key := cellKey (RFMScore.x score) (RFMScore.y score) in
  match grid !! key with
  | Some cell =>
      <[key := mkCell (count cell + 1) (items cell ++ [score]) (isSelected cell)]> grid
  | None => grid
  end.

Definition generateGridData (scoreData : list RFMScore.t) : gmap string GridCell :=
  foldl populate initGrid scoreData.

(** [selectedIds.includes(id)]. *)
Definition includes (selectedIds : list string) (id : string) : bool :=
  bool_decide (id ∈ selectedIds).

(** The body of the effect's [forEach]: the cell is marked when one of its
    items has a selected id. *)
Definition markSelected (selectedIds : list string) (cell : GridCell) : GridCell :=
  mkCell (count cell) (items cell)
    (existsb (λ item, includes selectedIds (RFMScore.id item)) (items cell)).

(** The grid the effect stores: built from the scores, then every cell
    marked; the cells are marked independently, so the order in which
    [Object.keys] lists them does not matter. *)
Definition gridEffect (scores : list RFMScore.t) (selectedIds : list string)
    : gmap string GridCell :=
  markSelected selectedIds <$> generateGridData scores.

(** [newSelectedIds.indexOf(id)]. *)
Definition indexOf (newSelectedIds : list string) (id : string) : Z :=
  findIndex (λ other, bool_decide (other = id)) newSelectedIds.

(** One turn of [cellIds.forEach]: [splice(index, 1)] when the id is found,
    [push(id)] otherwise. *)
Definition toggle (newSelectedIds : list string) (id : string) : list string :=
  let index := indexOf newSelectedIds id in
  if decide (index > -1) then delete (Z.to_nat index) newSelectedIds
  else newSelectedIds ++ [id].

(** [handleCellClick]; the result is the argument of [onSelectionChange],
    [None] when the handler returns without calling it.  The render calls it
    with the keys [cellKey x y] only. *)
Definition handleCellClick (selectable : bool) (gridData : gmap string GridCell)
    (selectedIds : list string) (key : string) : option (list string) :=
  if negb selectable then None
  else
    match gridData !! key with
    | None => None
    | Some cell =>
        if decide (count cell = 0) then None
        else
          let cellIds := map RFMScore.id (items cell) in
          Some (foldl toggle selectedIds cellIds)
    end.

(** [getCellColor]: the colour classes by customer count. *)
Definition getCellColor (count : Z) : string :=
  if decide (count = 0) then "bg-gray-100 dark:bg-gray-800"
  else if decide (count ≤ 2) then "bg-blue-200 dark:bg-blue-800"
  else if decide (count ≤ 5) then "bg-blue-300 dark:bg-blue-700"
  else if decide (count ≤ 10) then "bg-blue-400 dark:bg-blue-600"
  else "bg-blue-500 dark:bg-blue-500".

End RFMGrid.

(** The ids of the input items of cell [(a, b)]. *)
Definition cellIds (a b : Z) (scores : list RFMScore.t) : list string :=
  RFMScore.id <$> cellItems a b scores.

(** The values the generator can actually produce: the upper ends 400 and
    10000 of the ranges its comments name are excluded. *)
Definition recordProduced (r : RFMData.t) : Prop :=
  1 ≤ RFMData.recency r ≤ 399 ∧
  1 ≤ RFMData.frequency r ≤ 50 ∧
  10 ≤ RFMData.monetary r ≤ 9999.

(** ** The endpoint ([app/api/selected-ids/route.ts]) *)

Module Route.

(** The values [request.json()] can resolve to. *)
#[warnings="-register-all"]
Inductive json : Type :=
| JNull
| JBool (b : bool)
| JNumber (n : number)
| JString (s : string)
| JArray (elements : list json)
| JObject (properties : gmap string json).

(** The status and the body of a [NextResponse.json]. *)
Record Response : Type := mkResponse
  { status : Z;
    success : bool;
    message : string;
    count : Z;
    selectedIds : list string }.

(** [body.selectedIds] on a body that is not [null]: [None] is [undefined].
    Only an object can have the property; strings, numbers, booleans and
    arrays have none of that name. *)
Definition getSelectedIds (body : json) : option json :=
  match body with
  | JObject properties => properties !! "selectedIds"
  | _ => None
  end.

Definition truthy (v : option json) : bool :=
  match v with
  | None | Some JNull => false
  | Some (JBool b) => b
  | Some (JNumber (Finite q)) => negb (bool_decide (q = Qc_of_Z 0))
  | Some (JNumber NaN) => false
  | Some (JNumber _) => true
  | Some (JString s) => negb (bool_decide (s = ""))
  | Some (JArray _) | Some (JObject _) => true
  end.

(** [Array.isArray]. *)
Definition isArray (v : option json) : bool :=
  match v with
  | Some (JArray _) => true
  | _ => false
  end.

Definition elementsOf (v : option json) : list json :=
  match v with
  | Some (JArray elements) => elements
  | _ => []
  end.

(** [typeof id === 'string']. *)
Definition isString (v : json) : bool :=
  match v with
  | JString _ => true
  | _ => false
  end.

Definition stringsOf (elements : list json) : list string :=
  omap (λ v, match v with JString s => Some s | _ => None end) elements.

Definition failure (status : Z) (message : string) : Response :=
  mkResponse status false message 0 [].

(** The handler, on what [request.json()] gives: [None] when it rejects.  A
    rejection, and the [TypeError] of destructuring [null], end in the
    [catch] block; the logging there and the delay of 100 ms before the
    success response are left out. *)
Definition POST (request : option json) : Response :=
  match request with
  | None | Some JNull => failure 500 "Internal server error"
  | Some body =>
      let selectedIds := getSelectedIds body in
      if negb (truthy selectedIds) || negb (isArray selectedIds) then
        failure 400 "Invalid request: selectedIds must be an array"
      else if negb (forallb isString (elementsOf selectedIds)) then
        failure 400 "Invalid request: all selectedIds must be strings"
      else
        let ids := stringsOf (elementsOf selectedIds) in
        mkResponse 200 true
          ("Successfully processed " +:+ pretty (Z.of_nat (length ids)) +:+
           " selected customer(s)")
          (Z.of_nat (length ids)) ids
  end.

End Route.

(** ** The page ([app/page.tsx]) *)

Module Page.

Record RFMFilters : Type := mkFilters
  { recency : Z; frequency : Z; monetary : Z }.

Record State : Type := mkState
  { rfmData : list RFMData.t;
    rfmScores : list RFMScore.t;
    filteredScores : list RFMScore.t;
    selectedIds : list string;
    filters : RFMFilters }.

(** The initial values of the five [useState]. *)
Definition initial : State := mkState [] [] [] [] (mkFilters 1 1 1).

(** The page's filters, whose three fields are always present, as the
    argument of [filterRFMScores]. *)
Definition criteria (f : RFMFilters) : Filters.t :=
  Filters.mk (Some (recency f)) (Some (frequency f)) (Some (monetary f)).

Definition generateNewData (count : Z) (st : State) : Rand State :=
  let* newData := generateMockRFMData count in
  let newScores := calculateRFMScores newData in
  ret (mkState newData newScores newScores [] (filters st)).

Definition handleFiltersChange (newFilters : RFMFilters) (st : State) : State :=
  let filtered := filterRFMScores (rfmScores st) (criteria newFilters) in
  mkState (rfmData st) (rfmScores st) filtered [] newFilters.

Definition handleSelectionChange (newSelectedIds : list string) (st : State) : State :=
  mkState (rfmData st) (rfmScores st) (filteredScores st) newSelectedIds (filters st).

Definition handleClearSelection (st : State) : State :=
  mkState (rfmData st) (rfmScores st) (filteredScores st) [] (filters st).

(** The request [handleSubmitSelectedIds] hands to the mutation: none when
    nothing is selected. *)
Definition handleSubmitSelectedIds (st : State) : option (list string) :=
  if decide (Z.of_nat (length (selectedIds st)) = 0) then None
  else Some (selectedIds st).

(** A click on the cell [(a, b)] of the grid the page mounts: [RFMGrid]
    gets the filtered scores and the selection, is selectable, and reports
    to [handleSelectionChange].  The grid data of the component is the one
    its effect has stored for these scores and this selection. *)
Definition clickCell (a b : Z) (st : State) : State :=
  match RFMGrid.handleCellClick true
          (RFMGrid.gridEffect (filteredScores st) (selectedIds st))
          (selectedIds st) (cellKey a b) with
  | Some newSelectedIds => handleSelectionChange newSelectedIds st
  | None => st
  end.

(** What a user action makes of the state. *)
Inductive step : State → State → Prop :=
| step_generate st count src st' src' :
    unitDraws src →
    generateNewData count st src = Some (st', src') →
    step st st'
| step_filters st newFilters : step st (handleFiltersChange newFilters st)
| step_click st a b : step st (clickCell a b st)
| step_clear st : step st (handleClearSelection st).

Definition reachable (st : State) : Prop := rtc step initial st.

(** The body [axios] posts for a request, as [request.json()] reads it back:
    an object whose one property holds the array of the ids. *)
Definition requestBody (ids : list string) : Route.json :=
  Route.JObject {[ "selectedIds" := Route.JArray (Route.JString <$> ids) ]}.

End Page.


(** * Properties *)

(** ** [findIndex] *)

Section FindIndex.
Context {A : Type} (p : A → bool).

Lemma firstHit_unique l k1 k2 : firstHit p l k1 → firstHit p l k2 → k1 = k2.
Proof.
  intros [(a1 & Ha1 & Hp1) Hb1] [(a2 & Ha2 & Hp2) Hb2].
  destruct (Nat.lt_trichotomy k1 k2) as [Hlt | [-> | Hlt]]; [| done |].
  - specialize (Hb2 _ _ Hlt Ha1). congruence.
  - specialize (Hb1 _ _ Hlt Ha2). congruence.
Qed.

Lemma findIndex_from_cases l i :
  (findIndex_from p l i = -1 ∧ Forall (λ a, p a = false) l) ∨
  (∃ k, findIndex_from p l i = i + Z.of_nat k ∧ firstHit p l k).
Proof.
  revert i. induction l as [| a l IH]; intros i; simpl.
  - left. by split.
  - destruct (p a) eqn:Hpa.
    + right. exists 0%nat. split; [lia |]. split; [by exists a |].
      intros j b Hj. lia.
    + destruct (IH (i + 1)) as [[Heq Hall] | (k & Heq & (a' & Ha' & Hpa') & Hbefore)].
      * left. split; [done |]. by constructor.
      * right. exists (S k). split; [lia |]. split; [by exists a' |].
        intros [| j] b Hj Hb; simpl in Hb; [by simplify_eq |].
        apply (Hbefore j); [lia | done].
Qed.

Lemma findIndex_cases l :
  (findIndex p l = -1 ∧ Forall (λ a, p a = false) l) ∨
  (∃ k, findIndex p l = Z.of_nat k ∧ firstHit p l k).
Proof.
  unfold findIndex. destruct (findIndex_from_cases l 0) as [? | (k & Heq & ?)]; [by left |].
  right. exists k. split; [lia | done].
Qed.

Lemma findIndex_firstHit l k : firstHit p l k → findIndex p l = Z.of_nat k.
Proof.
  intros Hk. destruct (findIndex_cases l) as [[_ Hall] | (k' & -> & Hk')].
  - destruct Hk as [(a & Ha & Hpa) _].
    rewrite Forall_forall in Hall. apply list_elem_of_lookup_2 in Ha.
    specialize (Hall _ Ha). congruence.
  - by rewrite (firstHit_unique _ _ _ Hk' Hk).
Qed.

Lemma findIndex_none l :
  (∀ k, ¬ firstHit p l k) → findIndex p l = -1.
Proof.
  intros Hno. destruct (findIndex_cases l) as [[? _] | (k & _ & Hk)]; [done |].
  by destruct (Hno k).
Qed.

Lemma firstHit_lt l k : firstHit p l k → (k < length l)%nat.
Proof. intros [(a & Ha & _) _]. by eapply lookup_lt_Some. Qed.

End FindIndex.

(** ** Sorting and the percentile rank *)

Lemma sort_ascending_sorted values : sortedAscending values (sort_ascending values).
Proof.
  split; [apply merge_sort_Permutation | apply Sorted_merge_sort, _].
Qed.

Lemma sortedAscending_unique values s1 s2 :
  sortedAscending values s1 → sortedAscending values s2 → s1 = s2.
Proof.
  intros [Hp1 Hs1] [Hp2 Hs2].
  apply (Sorted_unique Z.le); [done | done |]. by rewrite Hp1, Hp2.
Qed.

Lemma sort_ascending_length values :
  length (sort_ascending values) = length values.
Proof. apply Permutation_length, merge_sort_Permutation. Qed.

Lemma firstPositionAtLeast_firstHit v sorted i :
  firstPositionAtLeast v sorted i ↔
  firstHit (λ item, bool_decide (v ≤ item)) sorted i.
Proof.
  unfold firstPositionAtLeast, firstHit. split.
  - intros [(x & Hx & Hle) Hbefore]. split.
    + exists x. by rewrite bool_decide_eq_true.
    + intros j b Hj Hb. rewrite bool_decide_eq_false.
      specialize (Hbefore _ _ Hj Hb). lia.
  - intros [(x & Hx & Hle) Hbefore]. split.
    + exists x. by rewrite bool_decide_eq_true in Hle.
    + intros j b Hj Hb. specialize (Hbefore _ _ Hj Hb).
      rewrite bool_decide_eq_false in Hbefore. lia.
Qed.

Lemma js_div_finite a b : b ≠ 0 → js_div a b = Finite (Qc_of_Z a / Qc_of_Z b)%Qc.
Proof. intros Hb. unfold js_div. by rewrite decide_False. Qed.

(** The three branches of [calculatePercentile], told apart by where the
    first value at least [v] sits in any ascending arrangement. *)
Lemma calculatePercentile_none v values sorted :
  sortedAscending values sorted →
  (∀ i, ¬ firstPositionAtLeast v sorted i) →
  calculatePercentile v values = num_1.
Proof.
  intros Hs Hno. unfold calculatePercentile.
  rewrite <-(sortedAscending_unique _ _ _ Hs (sort_ascending_sorted values)).
  rewrite findIndex_none; [done |].
  intros k Hk. apply (Hno k). by apply firstPositionAtLeast_firstHit.
Qed.

Lemma calculatePercentile_at v values sorted i :
  sortedAscending values sorted →
  firstPositionAtLeast v sorted i →
  calculatePercentile v values =
    if decide (i = 0%nat) then num_0
    else Finite (Qc_of_Z (Z.of_nat i) / Qc_of_Z (Z.of_nat (length values) - 1))%Qc.
Proof.
  intros Hs Hi. unfold calculatePercentile.
  rewrite <-(sortedAscending_unique _ _ _ Hs (sort_ascending_sorted values)).
  apply firstPositionAtLeast_firstHit in Hi.
  rewrite (findIndex_firstHit _ _ _ Hi).
  apply firstHit_lt in Hi.
  rewrite decide_False by lia.
  destruct (decide (i = 0%nat)) as [-> | Hne]; [done |].
  rewrite decide_False by lia.
  destruct Hs as [Hperm _]. rewrite (Permutation_length Hperm) in *.
  apply js_div_finite. lia.
Qed.

(** C1: on a non-empty array, [calculatePercentile] computes exactly the
    percentile rank of the reference definition (sort ascending, first
    0-based position [i] holding a value at least [v]; 0 when [i] is 0, 1
    when there is no such position, [i / (n-1)] otherwise): its result
    satisfies the definition, and it is the only number that does. *)
Theorem calculatePercentile_refines_percentileRank (v : Z) (values : list Z) :
  values ≠ [] →
  percentileRank v values (calculatePercentile v values) ∧
  ∀ p, percentileRank v values p → p = calculatePercentile v values.
Proof.
  intros _. split.
  - pose proof (sort_ascending_sorted values) as Hs.
    destruct (findIndex_cases (λ item, bool_decide (v ≤ item)) (sort_ascending values))
      as [[_ Hall] | (k & _ & Hk)].
    + assert (∀ i, ¬ firstPositionAtLeast v (sort_ascending values) i) as Hno.
      { intros i [(x & Hx & Hle) _]. rewrite Forall_forall in Hall.
        apply list_elem_of_lookup_2 in Hx. specialize (Hall _ Hx).
        rewrite bool_decide_eq_false in Hall. lia. }
      rewrite (calculatePercentile_none _ _ _ Hs Hno). by eapply rank_one.
    + apply firstPositionAtLeast_firstHit in Hk.
      rewrite (calculatePercentile_at _ _ _ _ Hs Hk).
      destruct (decide (k = 0%nat)) as [-> | Hne].
      * by eapply rank_zero.
      * by eapply rank_ratio.
  - intros p Hp. destruct Hp as [sorted Hs H0 | sorted Hs Hno | sorted i Hs Hi Hne].
    + by rewrite (calculatePercentile_at _ _ _ _ Hs H0).
    + by rewrite (calculatePercentile_none _ _ _ Hs Hno).
    + rewrite (calculatePercentile_at _ _ _ _ Hs Hi). by rewrite decide_False.
Qed.

Lemma calculatePercentile_refines_percentileRank_witness :
  [10; 20; 30; 40; 50] ≠ [] ∧
  percentileRank 30 [10; 20; 30; 40; 50] (js_div 2 4).
Proof.
  assert ([10; 20; 30; 40; 50] ≠ []) as Hne by done.
  split; [exact Hne |].
  exact (proj1 (calculatePercentile_refines_percentileRank 30 [10; 20; 30; 40; 50] Hne)).
Defined.

(** On [[10, 20, 30, 40, 50]] the value 30 sits at index 2 of 5 and ranks at
    2/4, which scores 3. *)
Example percentile_of_30 :
  calculatePercentile 30 [10; 20; 30; 40; 50] = Finite (Qc_of_Z 1 / Qc_of_Z 2)%Qc ∧
  percentileToScore (calculatePercentile 30 [10; 20; 30; 40; 50]) false = 3.
Proof.
  split; [| by vm_compute].
  vm_compute. f_equal. by apply Qc_is_canon.
Qed.

(** The call of the docstring of [calculatePercentile], annotated there with
    0.6: the first value at least 25 is again the 30 at index 2, so the
    function returns 2/4. *)
Example percentile_of_25 :
  calculatePercentile 25 [10; 20; 30; 40; 50] = js_div 2 4.
Proof. by vm_compute. Qed.

(** ** Membership, ties and totality *)

Lemma filter_none {A : Type} (P : A → Prop) `{!∀ a, Decision (P a)} (l : list A) :
  Forall (λ a, ¬ P a) l → filter P l = [].
Proof.
  induction 1 as [| a l Ha _ IH]; [done |].
  by rewrite filter_cons_False.
Qed.

Lemma firstPositionAtLeast_cons_S v a l i :
  firstPositionAtLeast v (a :: l) (S i) → a < v ∧ firstPositionAtLeast v l i.
Proof.
  intros [(x & Hx & Hle) Hbefore]. split.
  - apply (Hbefore 0%nat); [lia | done].
  - split; [by exists x |].
    intros j y Hj Hy. apply (Hbefore (S j)); [lia | done].
Qed.

(** In an ascending array the first position at least [v] is preceded by
    exactly the values below [v]. *)
Lemma firstPositionAtLeast_countBelow v sorted i :
  StronglySorted Z.le sorted →
  firstPositionAtLeast v sorted i →
  countBelow v sorted = i.
Proof.
  unfold countBelow. intros Hs. revert i.
  induction Hs as [| a l _ IH Hall]; intros i Hi.
  - by destruct Hi as [(x & Hx & _) _].
  - destruct i as [| i].
    + destruct Hi as [(x & Hx & Hle) _]. simplify_eq/=.
      rewrite filter_none; [done |].
      constructor; [lia |]. eapply Forall_impl; [exact Hall |]. simpl. lia.
    + apply firstPositionAtLeast_cons_S in Hi as [Hlt Hi].
      rewrite filter_cons_True by done. simpl. by rewrite (IH _ Hi).
Qed.

(** When [v] occurs in the array, that position holds [v] itself: the first
    of its occurrences. *)
Lemma firstPositionAtLeast_member v sorted i :
  StronglySorted Z.le sorted →
  v ∈ sorted →
  firstPositionAtLeast v sorted i →
  sorted !! i = Some v.
Proof.
  intros Hs. revert i.
  induction Hs as [| a l _ IH Hall]; intros i Hin Hi.
  - by apply elem_of_nil in Hin.
  - destruct i as [| i].
    + destruct Hi as [(x & Hx & Hle) _]. simplify_eq/=.
      apply elem_of_cons in Hin as [-> | Hin]; [done |].
      rewrite Forall_forall in Hall. specialize (Hall _ Hin).
      f_equal. lia.
    + apply firstPositionAtLeast_cons_S in Hi as [Hlt Hi]. simpl.
      apply elem_of_cons in Hin as [-> | Hin]; [lia |]. by apply IH.
Qed.

Lemma sortedAscending_strongly values sorted :
  sortedAscending values sorted → StronglySorted Z.le sorted.
Proof. intros [_ Hs]. by apply Sorted_StronglySorted; [apply _ |]. Qed.

Lemma member_firstPositionAtLeast v values :
  v ∈ values →
  firstPositionAtLeast v (sort_ascending values) (countBelow v values).
Proof.
  intros Hin.
  pose proof (sort_ascending_sorted values) as Hs.
  destruct (findIndex_cases (λ item, bool_decide (v ≤ item)) (sort_ascending values))
    as [[_ Hall] | (k & _ & Hk)].
  - rewrite Forall_forall in Hall. specialize (Hall v).
    rewrite bool_decide_eq_false in Hall. destruct Hall; [| lia].
    destruct Hs as [Hperm _]. by rewrite Hperm.
  - apply firstPositionAtLeast_firstHit in Hk.
    pose proof (firstPositionAtLeast_countBelow _ _ _ (sortedAscending_strongly _ _ Hs) Hk) as Hc.
    unfold countBelow in *. destruct Hs as [Hperm _].
    rewrite Hperm in Hc. by rewrite Hc.
Qed.

Lemma Qc_of_Z_quotient_unit a b :
  0 ≤ a ≤ b → 0 < b → (Qc_of_Z 0 ≤ Qc_of_Z a / Qc_of_Z b)%Qc ∧ (Qc_of_Z a / Qc_of_Z b ≤ Qc_of_Z 1)%Qc.
Proof.
  intros Ha Hb. unfold Qcle. simpl. rewrite !Qred_correct.
  assert (0 < inject_Z b)%Q as Hb' by (rewrite (Zlt_Qlt 0 b) in Hb; exact Hb).
  split.
  - apply Qle_shift_div_l; [done |]. rewrite Qmult_0_l.
    rewrite (Zle_Qle 0 a) in Ha. apply Ha.
  - apply Qle_shift_div_r; [done |]. rewrite Qmult_1_l.
    rewrite <-Zle_Qle. lia.
Qed.

(** C9: when [v] is an element of the array, the search for the first
    position holding a value at least [v] succeeds, so the [return 1] branch
    is not taken; the division is reached only with an index of at least 1,
    which forces at least two values and a divisor [n - 1] that is not zero;
    and whatever [v] is, the result is a finite number between 0 and 1. *)
Theorem calculatePercentile_total_fallback_dead (v : Z) (array : list Z) :
  v ∈ array →
  let sortedArray := sort_ascending array in
  let index := findIndex (λ item, bool_decide (v ≤ item)) sortedArray in
  index ≠ -1 ∧
  0 ≤ index < Z.of_nat (length sortedArray) ∧
  (index ≠ 0 → 1 ≤ index ∧ (2 ≤ length array)%nat ∧
               Z.of_nat (length sortedArray) - 1 ≠ 0) ∧
  ∀ w, ∃ q, calculatePercentile w array = Finite q ∧
            (Qc_of_Z 0 ≤ q)%Qc ∧ (q ≤ Qc_of_Z 1)%Qc.
Proof.
  intros Hin sortedArray index.
  pose proof (member_firstPositionAtLeast _ _ Hin) as Hk.
  pose proof Hk as Hhit. apply firstPositionAtLeast_firstHit in Hhit.
  pose proof (firstHit_lt _ _ _ Hhit) as Hlt.
  pose proof (sort_ascending_length array) as Hlen.
  assert (index = Z.of_nat (countBelow v array)) as ->
    by apply (findIndex_firstHit _ _ _ Hhit).
  subst sortedArray. repeat split; try lia.
  intros w.
  pose proof (sort_ascending_sorted array) as Hs.
  destruct (findIndex_cases (λ item, bool_decide (w ≤ item)) (sort_ascending array))
    as [[_ Hall] | (k & _ & Hw)].
  - exists (Qc_of_Z 1). split; [| done].
    apply (calculatePercentile_none _ _ _ Hs).
    intros i [(x & Hx & Hle) _]. rewrite Forall_forall in Hall.
    apply list_elem_of_lookup_2 in Hx. specialize (Hall _ Hx).
    rewrite bool_decide_eq_false in Hall. lia.
  - pose proof (firstHit_lt _ _ _ Hw) as Hk'.
    apply firstPositionAtLeast_firstHit in Hw.
    rewrite (calculatePercentile_at _ _ _ _ Hs Hw).
    destruct (decide (k = 0%nat)) as [-> | Hne].
    + by exists (Qc_of_Z 0).
    + eexists. split; [done |]. apply Qc_of_Z_quotient_unit; lia.
Qed.

Lemma calculatePercentile_total_fallback_dead_witness :
  3 ∈ [5; 3; 3; 9] ∧
  findIndex (λ item, bool_decide (3 ≤ item)) (sort_ascending [5; 3; 3; 9]) ≠ -1.
Proof.
  assert (3 ∈ [5; 3; 3; 9]) as Hin by (apply list_elem_of_In; simpl; tauto).
  split; [exact Hin |].
  exact (proj1 (calculatePercentile_total_fallback_dead 3 [5; 3; 3; 9] Hin)).
Defined.

(** During scoring every percentile is computed for a value of the very
    array it is ranked in, so none of them involves a zero divisor. *)
Lemma scoring_percentiles_finite (dim : RFMData.t → Z) (data : list RFMData.t) item :
  item ∈ data →
  ∃ q, calculatePercentile (dim item) (map dim data) = Finite q ∧
       (Qc_of_Z 0 ≤ q)%Qc ∧ (q ≤ Qc_of_Z 1)%Qc.
Proof.
  intros Hin.
  assert (dim item ∈ map dim data) as Hv by (by apply list_elem_of_fmap_2).
  apply (calculatePercentile_total_fallback_dead _ _ Hv).
Qed.

(** C6, as the code has it: a tied value is ranked by the first of its
    occurrences in the ascending array, the position that has exactly the
    strictly smaller values before it (not the midpoint of the tie), and two
    records with the same value in a dimension always get the same
    percentile. *)
Theorem ties_share_first_occurrence_rank
    (dim : RFMData.t → Z) (data : list RFMData.t) (r1 r2 : RFMData.t) :
  r1 ∈ data → r2 ∈ data → dim r1 = dim r2 →
  let values := map dim data in
  let i := countBelow (dim r1) values in
  sort_ascending values !! i = Some (dim r1) ∧
  (∀ j y, (j < i)%nat → sort_ascending values !! j = Some y → y < dim r1) ∧
  calculatePercentile (dim r1) values =
    (if decide (i = 0%nat) then num_0
     else Finite (Qc_of_Z (Z.of_nat i) / Qc_of_Z (Z.of_nat (length values) - 1))%Qc) ∧
  calculatePercentile (dim r2) values = calculatePercentile (dim r1) values.
Proof.
  intros Hin1 _ Heq values i.
  assert (dim r1 ∈ values) as Hv by (by apply list_elem_of_fmap_2).
  pose proof (member_firstPositionAtLeast _ _ Hv) as Hk. fold i in Hk.
  pose proof (sort_ascending_sorted values) as Hs.
  split; [| split; [| split]].
  - apply firstPositionAtLeast_member; [by eapply sortedAscending_strongly | | done].
    destruct Hs as [Hperm _]. by rewrite Hperm.
  - apply Hk.
  - apply (calculatePercentile_at _ _ _ _ Hs Hk).
  - by rewrite Heq.
Qed.

Lemma ties_share_first_occurrence_rank_witness :
  let data := [RFMData.mk "a" 10 1 1; RFMData.mk "b" 20 1 1;
               RFMData.mk "c" 20 1 1; RFMData.mk "d" 30 1 1] in
  calculatePercentile 20 (map RFMData.recency data) =
    Finite (Qc_of_Z 1 / Qc_of_Z 3)%Qc.
Proof.
  intros data.
  assert (RFMData.mk "b" 20 1 1 ∈ data) as H1
    by (apply list_elem_of_In; simpl; tauto).
  assert (RFMData.mk "c" 20 1 1 ∈ data) as H2
    by (apply list_elem_of_In; simpl; tauto).
  exact (proj1 (proj2 (proj2
    (ties_share_first_occurrence_rank RFMData.recency data _ _ H1 H2 eq_refl)))).
Defined.

(** C6, refuted as stated: no dataset has two records with the same value
    in a dimension and different percentile ranks. *)
Lemma equal_values_never_rank_apart :
  ¬ ∃ (dim : RFMData.t → Z) (data : list RFMData.t) (r1 r2 : RFMData.t),
      r1 ∈ data ∧ r2 ∈ data ∧ dim r1 = dim r2 ∧
      calculatePercentile (dim r1) (map dim data) ≠
      calculatePercentile (dim r2) (map dim data).
Proof.
  intros (dim & data & r1 & r2 & _ & _ & Heq & Hne).
  apply Hne. by rewrite Heq.
Qed.

(** C10: scoring the empty sequence returns the empty sequence. *)
Theorem calculateRFMScores_empty : calculateRFMScores [] = [].
Proof. reflexivity. Qed.

(** ** Scores *)

Lemma js_le_fifths q k :
  js_le (Finite q) (fifths k) = bool_decide (q ≤ fifth k)%Qc.
Proof. reflexivity. Qed.

Ltac to_Q :=
  unfold Qcle, Qclt, fifth in *; cbn [this Qc_of_Z Qcdiv Qcmult Qcinv Q2Qc] in *;
  rewrite ?Qred_correct in *; unfold inject_Z in *.

(** C2: on a percentile in [0, 1] the score is 1 up to 0.2, 2 up to 0.4, 3
    up to 0.6, 4 up to 0.8 and 5 above; for recency the result is 6 minus
    that score, so the lowest percentiles get 5 and a lower percentile never
    gets a lower recency score. *)
Theorem percentileToScore_thresholds (q : Qc) :
  (Qc_of_Z 0 ≤ q)%Qc → (q ≤ Qc_of_Z 1)%Qc →
  let p := Finite q in
  (percentileToScore p false = 1 ↔ (q ≤ fifth 1)%Qc) ∧
  (percentileToScore p false = 2 ↔ (fifth 1 < q)%Qc ∧ (q ≤ fifth 2)%Qc) ∧
  (percentileToScore p false = 3 ↔ (fifth 2 < q)%Qc ∧ (q ≤ fifth 3)%Qc) ∧
  (percentileToScore p false = 4 ↔ (fifth 3 < q)%Qc ∧ (q ≤ fifth 4)%Qc) ∧
  (percentileToScore p false = 5 ↔ (fifth 4 < q)%Qc) ∧
  percentileToScore p true = 6 - percentileToScore p false ∧
  ((q ≤ fifth 1)%Qc → percentileToScore p true = 5) ∧
  (∀ q', (q' ≤ q)%Qc →
     percentileToScore p true ≤ percentileToScore (Finite q') true).
Proof.
  intros H0 H1 p. subst p. unfold percentileToScore.
  rewrite !js_le_fifths.
  repeat split.
  all: try (intros q' Hq'; rewrite !js_le_fifths).
  all: repeat case_bool_decide; intros; destruct_and?; try lia.
  all: try (to_Q; lra).
  all: try (split; to_Q; lra).
  all: exfalso; to_Q; lra.
Qed.

Lemma percentileToScore_thresholds_witness :
  let q := (Qc_of_Z 1 / Qc_of_Z 2)%Qc in
  ((Qc_of_Z 0 ≤ q)%Qc ∧ (q ≤ Qc_of_Z 1)%Qc) ∧
  percentileToScore (Finite q) false = 3 ∧
  percentileToScore (Finite q) true = 6 - percentileToScore (Finite q) false.
Proof.
  intros q.
  assert (Qc_of_Z 0 ≤ q)%Qc as H0 by (by vm_compute).
  assert (q ≤ Qc_of_Z 1)%Qc as H1 by (by vm_compute).
  pose proof (percentileToScore_thresholds q H0 H1) as (_ & _ & H3 & _ & _ & Hr & _).
  split; [by split |]. split; [| exact Hr].
  apply H3. split; by vm_compute.
Defined.

(** The two calls of the docstring of [percentileToScore]: 0.8 scores 4; 0.2
    for recency, annotated there with 4, scores 6 - 1 = 5. *)
Example percentileToScore_docstring :
  percentileToScore (fifths 4) false = 4 ∧ percentileToScore (fifths 1) true = 5.
Proof. by vm_compute. Qed.

Lemma percentileToScore_range p isRecency :
  1 ≤ percentileToScore p isRecency ≤ 5.
Proof.
  unfold percentileToScore.
  destruct isRecency; repeat (destruct (js_le p _)); lia.
Qed.

(** C3: scoring a non-empty sequence yields one scored customer per record,
    at the same position and with the same id; its three scores are
    integers from 1 to 5, [x] is the frequency score and [y] the monetary
    score. *)
Theorem calculateRFMScores_per_record (data : list RFMData.t) :
  data ≠ [] →
  length (calculateRFMScores data) = length data ∧
  Forall2 (λ item score,
      RFMScore.id score = RFMData.id item ∧
      1 ≤ RFMScore.recencyScore score ≤ 5 ∧
      1 ≤ RFMScore.frequencyScore score ≤ 5 ∧
      1 ≤ RFMScore.monetaryScore score ≤ 5 ∧
      RFMScore.x score = RFMScore.frequencyScore score ∧
      RFMScore.y score = RFMScore.monetaryScore score)
    data (calculateRFMScores data).
Proof.
  intros _. unfold calculateRFMScores.
  generalize (map RFMData.recency data) (map RFMData.frequency data)
             (map RFMData.monetary data).
  intros rs fs ms. split; [apply length_map |].
  induction data as [| item data IH]; cbn [map]; constructor; [| exact IH].
  split; [done |].
  do 3 (split; [apply percentileToScore_range |]). done.
Qed.

Lemma calculateRFMScores_per_record_witness :
  sampleRFMData ≠ [] ∧
  length (calculateRFMScores sampleRFMData) = 20%nat ∧
  map RFMScore.id (calculateRFMScores sampleRFMData) = map RFMData.id sampleRFMData.
Proof.
  assert (sampleRFMData ≠ []) as Hne by done.
  split; [exact Hne |].
  split; [exact (proj1 (calculateRFMScores_per_record sampleRFMData Hne)) |].
  by vm_compute.
Defined.

(** ** The filter *)

Lemma belowThreshold_Some t score :
  0 ≤ score → belowThreshold (Some t) score = bool_decide (score < t).
Proof.
  intros Hs. unfold belowThreshold. destruct (decide (t = 0)) as [-> | _]; [| done].
  symmetry. apply bool_decide_eq_false. lia.
Qed.

Lemma filterRFMScores_meetsCriteria scores r f m :
  Forall scoresInRange scores →
  filterRFMScores scores (Filters.mk (Some r) (Some f) (Some m)) =
  filter (meetsCriteria r f m) scores.
Proof.
  unfold filterRFMScores. cbn [Filters.recency Filters.frequency Filters.monetary].
  induction 1 as [| s scores (Hr & Hf & Hm) _ IH]; [done |].
  cbn [List.filter]. rewrite IH, !belowThreshold_Some, filter_cons by lia.
  destruct (decide (meetsCriteria r f m s)) as [(? & ? & ?) | Hno].
  - by rewrite !bool_decide_eq_false_2 by lia.
  - repeat case_bool_decide; try done. destruct Hno. unfold meetsCriteria. lia.
Qed.

Lemma filter_length_mono {A : Type} (P Q : A → Prop)
    `{!∀ a, Decision (P a), !∀ a, Decision (Q a)} (l : list A) :
  (∀ a, P a → Q a) → (length (filter P l) ≤ length (filter Q l))%nat.
Proof.
  intros HPQ. induction l as [| a l IH]; [done |].
  rewrite !filter_cons. destruct (decide (P a)) as [HP | HP].
  - rewrite decide_True by auto. simpl. lia.
  - destruct (decide (Q a)); simpl; lia.
Qed.

Lemma filter_all {A : Type} (P : A → Prop) `{!∀ a, Decision (P a)} (l : list A) :
  Forall P l → filter P l = l.
Proof.
  induction 1 as [| a l Ha _ IH]; [done |].
  by rewrite filter_cons_True, IH.
Qed.

(** C5: on scores in [[1, 5]] and integer criteria, the filter keeps exactly
    the records whose three scores each reach their threshold, in their
    order; thresholds outside [[1, 5]] are taken as they are, so 0 keeps
    every record and 6 keeps none. *)
Theorem filterRFMScores_conjunctive (scores : list RFMScore.t) (r f m : Z) :
  Forall scoresInRange scores →
  filterRFMScores scores (Filters.mk (Some r) (Some f) (Some m)) =
    filter (meetsCriteria r f m) scores ∧
  (∀ s, s ∈ filterRFMScores scores (Filters.mk (Some r) (Some f) (Some m)) ↔
        s ∈ scores ∧
        RFMScore.recencyScore s >= r ∧
        RFMScore.frequencyScore s >= f ∧
        RFMScore.monetaryScore s >= m) ∧
  filterRFMScores scores (Filters.mk (Some 0) (Some 0) (Some 0)) = scores ∧
  filterRFMScores scores (Filters.mk (Some 6) (Some f) (Some m)) = [] ∧
  filterRFMScores scores (Filters.mk (Some r) (Some 6) (Some m)) = [] ∧
  filterRFMScores scores (Filters.mk (Some r) (Some f) (Some 6)) = [].
Proof.
  intros Hrange. rewrite !filterRFMScores_meetsCriteria by done.
  split; [done |]. split; [| split; [| repeat split]].
  - intros s. rewrite list_elem_of_filter. unfold meetsCriteria. intuition lia.
  - apply filter_all. eapply Forall_impl; [exact Hrange |].
    unfold scoresInRange, meetsCriteria. intros s. lia.
  - apply filter_none. eapply Forall_impl; [exact Hrange |].
    unfold scoresInRange, meetsCriteria. intros s. lia.
  - apply filter_none. eapply Forall_impl; [exact Hrange |].
    unfold scoresInRange, meetsCriteria. intros s. lia.
  - apply filter_none. eapply Forall_impl; [exact Hrange |].
    unfold scoresInRange, meetsCriteria. intros s. lia.
Qed.

(** C7: on scores in [[1, 5]] and thresholds in [[1, 5]], raising one
    threshold and keeping the other two never lets more records through. *)
Theorem filterRFMScores_monotone (scores : list RFMScore.t) (r f m r' f' m' : Z) :
  Forall scoresInRange scores →
  1 ≤ r ≤ 5 → 1 ≤ f ≤ 5 → 1 ≤ m ≤ 5 →
  (r ≤ r' ∧ f' = f ∧ m' = m) ∨
  (r' = r ∧ f ≤ f' ∧ m' = m) ∨
  (r' = r ∧ f' = f ∧ m ≤ m') →
  (length (filterRFMScores scores (Filters.mk (Some r') (Some f') (Some m'))) ≤
   length (filterRFMScores scores (Filters.mk (Some r) (Some f) (Some m))))%nat.
Proof.
  intros Hrange _ _ _ Hraise.
  rewrite !filterRFMScores_meetsCriteria by done.
  apply filter_length_mono. unfold meetsCriteria. intros s. lia.
Qed.

Lemma demoScores_in_range : Forall scoresInRange demoScores.
Proof. repeat constructor; simpl; lia. Qed.

Lemma filterRFMScores_conjunctive_witness :
  Forall scoresInRange demoScores ∧
  filterRFMScores demoScores (Filters.mk (Some 3) (Some 2) (Some 4)) =
    filter (meetsCriteria 3 2 4) demoScores ∧
  filterRFMScores demoScores (Filters.mk (Some 0) (Some 0) (Some 0)) = demoScores.
Proof.
  pose proof (filterRFMScores_conjunctive demoScores 3 2 4 demoScores_in_range)
    as (Hspec & _ & Hzero & _).
  split; [exact demoScores_in_range |]. split; [exact Hspec | exact Hzero].
Defined.

Lemma filterRFMScores_monotone_witness :
  (Forall scoresInRange demoScores ∧ 1 ≤ 2 ≤ 5 ∧ 1 ≤ 1 ≤ 5 ∧ 1 ≤ 1 ≤ 5) ∧
  (length (filterRFMScores demoScores (Filters.mk (Some 4%Z) (Some 1%Z) (Some 1%Z))) ≤
   length (filterRFMScores demoScores (Filters.mk (Some 2%Z) (Some 1%Z) (Some 1%Z))))%nat.
Proof.
  assert (1 ≤ 2 ≤ 5) as Hr by lia.
  assert (1 ≤ 1 ≤ 5) as Hf by lia.
  split; [by repeat split; try apply demoScores_in_range |].
  apply (filterRFMScores_monotone demoScores 2 1 1 4 1 1
           demoScores_in_range Hr Hf Hf).
  left. lia.
Defined.

(** ** The grid *)

Lemma foldl_insert_lookup {V : Type} (v : V) (keys : list string)
    (m : gmap string V) (k : string) :
  foldl (λ g key, <[key := v]> g) m keys !! k =
  if decide (k ∈ keys) then Some v else m !! k.
Proof.
  revert m. induction keys as [| key keys IH]; intros m; cbn [foldl].
  - destruct (decide (k ∈ [])) as [Hin | _]; [by apply elem_of_nil in Hin | done].
  - rewrite IH, lookup_insert.
    destruct (decide (k ∈ keys)) as [Hin | Hnin].
    { destruct (decide (k ∈ key :: keys)) as [_ | Hno]; [done |].
      destruct Hno. by right. }
    destruct (decide (key = k)) as [-> | Hne].
    { destruct (decide (k ∈ k :: keys)) as [_ | Hno]; [done |].
      destruct Hno. by left. }
    destruct (decide (k ∈ key :: keys)) as [Hin | _]; [| done].
    by apply elem_of_cons in Hin as [? | ?].
Qed.

Lemma initGrid_flat :
  initGrid = foldl (λ g key, <[key := mkCell 0 []]> g) ∅ gridKeys.
Proof. reflexivity. Qed.

Lemma initGrid_lookup k :
  initGrid !! k = if decide (k ∈ gridKeys) then Some (mkCell 0 []) else None.
Proof. rewrite initGrid_flat, foldl_insert_lookup. by rewrite lookup_empty. Qed.

Lemma gridKeys_spec k :
  k ∈ gridKeys ↔ ∃ a b, 1 ≤ a ≤ 5 ∧ 1 ≤ b ≤ 5 ∧ k = cellKey a b.
Proof.
  unfold gridKeys. rewrite list_elem_of_In, in_flat_map. split.
  - intros (a & Ha & Hk). apply in_map_iff in Hk as (b & <- & Hb).
    apply list_elem_of_In, elem_of_seqZ in Ha.
    apply list_elem_of_In, elem_of_seqZ in Hb.
    exists a, b. repeat split; lia.
  - intros (a & b & Ha & Hb & ->). exists a. split.
    + apply list_elem_of_In, elem_of_seqZ. lia.
    + apply in_map, list_elem_of_In, elem_of_seqZ. lia.
Qed.

Lemma dash_split (s t : string) (c d : ascii) :
  c ≠ "-"%char → d ≠ "-"%char →
  s +:+ "-" +:+ t = String c (String "-" (String d "")) →
  s = String c "" ∧ t = String d "".
Proof.
  intros Hc Hd.
  destruct s as [| c1 [| c2 [| c3 s]]]; intros H;
    cbv [String.append] in H; simplify_eq.
  - done.
  - by destruct s.
Qed.

Lemma pretty_digit a :
  1 ≤ a ≤ 5 → ∃ c, pretty a = String c "" ∧ c ≠ "-"%char.
Proof.
  intros Ha.
  assert (a = 1 ∨ a = 2 ∨ a = 3 ∨ a = 4 ∨ a = 5) as Hcases by lia.
  destruct Hcases as [-> | [-> | [-> | [-> | ->]]]];
    (eexists; split; [reflexivity | done]).
Qed.

(** Only the coordinates [(a, b)] themselves produce the key of an in-range
    cell: no other pair of integers prints to the same three characters. *)
Lemma cellKey_inj a b x y :
  1 ≤ a ≤ 5 → 1 ≤ b ≤ 5 → cellKey x y = cellKey a b → x = a ∧ y = b.
Proof.
  intros Ha Hb. unfold cellKey.
  destruct (pretty_digit a Ha) as (c & Hc & Hcd).
  destruct (pretty_digit b Hb) as (d & Hd & Hdd).
  rewrite Hc, Hd. intros H. apply dash_split in H as [Hx Hy]; [| done | done].
  rewrite <-Hc in Hx. rewrite <-Hd in Hy.
  split; by apply (inj pretty).
Qed.

Lemma keyOf_in_gridKeys s : keyOf s ∈ gridKeys ↔ gridInRange s.
Proof.
  rewrite gridKeys_spec. unfold keyOf, gridInRange. split.
  - intros (a & b & Ha & Hb & Hk).
    apply cellKey_inj in Hk as [-> ->]; done.
  - intros [Hx Hy]. eauto.
Qed.

Lemma getGridData_snoc scores s :
  getGridData (scores ++ [s]) = populate (getGridData scores) s.
Proof. unfold getGridData. apply foldl_snoc. Qed.

(** What the loop has built, cell by cell. *)
Lemma getGridData_lookup scores k :
  getGridData scores !! k =
  if decide (k ∈ gridKeys) then
    Some (mkCell (Z.of_nat (length (filter (λ s, keyOf s = k) scores)))
                 (filter (λ s, keyOf s = k) scores))
  else None.
Proof.
  induction scores as [| s scores IH] using rev_ind.
  - apply initGrid_lookup.
  - rewrite getGridData_snoc. unfold populate. fold (keyOf s).
    rewrite filter_app, filter_cons, filter_nil.
    pose proof (IH) as IHk. clear IH.
    destruct (getGridData scores !! keyOf s) as [cell |] eqn:Hcell.
    + rewrite lookup_insert. destruct (decide (keyOf s = k)) as [Heq | Hne].
      * rewrite Heq in Hcell. rewrite Hcell in IHk.
        destruct (decide (k ∈ gridKeys)); [| done]. simplify_eq/=.
        rewrite length_app. simpl. do 2 f_equal. lia.
      * by rewrite app_nil_r.
    + destruct (decide (keyOf s = k)) as [Heq | Hne].
      * rewrite Heq in Hcell. rewrite Hcell in IHk.
        by destruct (decide (k ∈ gridKeys)).
      * by rewrite app_nil_r.
Qed.

Lemma totalCount_update grid k cell cell' :
  grid !! k = Some cell →
  totalCount (<[k := cell']> grid) = totalCount grid + (count cell' - count cell).
Proof.
  intros Hk. unfold totalCount.
  rewrite <-insert_delete_eq.
  rewrite map_fold_insert_L; [| intros; lia | apply lookup_delete_eq].
  rewrite (map_fold_delete_L _ _ k cell grid); [lia | intros; lia | done].
Qed.

Lemma totalCount_initGrid : totalCount initGrid = 0.
Proof. by vm_compute. Qed.

Lemma totalCount_getGridData scores :
  totalCount (getGridData scores) = Z.of_nat (length (filter gridInRange scores)).
Proof.
  induction scores as [| s scores IH] using rev_ind.
  - apply totalCount_initGrid.
  - rewrite getGridData_snoc, filter_app, length_app, filter_cons, filter_nil.
    unfold populate. fold (keyOf s).
    pose proof (getGridData_lookup scores (keyOf s)) as Hlook.
    destruct (decide (gridInRange s)) as [Hin | Hout].
    + rewrite decide_True in Hlook by (by apply keyOf_in_gridKeys).
      rewrite Hlook, (totalCount_update _ _ _ _ Hlook), IH. simpl. lia.
    + rewrite decide_False in Hlook by (by rewrite keyOf_in_gridKeys).
      rewrite Hlook, IH. simpl. lia.
Qed.

Lemma filter_keyOf_cellKey a b scores :
  1 ≤ a ≤ 5 → 1 ≤ b ≤ 5 →
  filter (λ s, keyOf s = cellKey a b) scores = cellItems a b scores.
Proof.
  intros Ha Hb. unfold cellItems. apply list_filter_iff. intros s. split.
  - by apply cellKey_inj.
  - intros [<- <-]. done.
Qed.

Lemma getGridData_cell scores a b :
  1 ≤ a ≤ 5 → 1 ≤ b ≤ 5 →
  getGridData scores !! cellKey a b =
  Some (mkCell (Z.of_nat (length (cellItems a b scores))) (cellItems a b scores)).
Proof.
  intros Ha Hb. rewrite getGridData_lookup.
  rewrite decide_True by (apply gridKeys_spec; eauto).
  by rewrite filter_keyOf_cellKey.
Qed.

Lemma gridKeys_NoDup : NoDup gridKeys.
Proof. apply (bool_decide_unpack (NoDup gridKeys)). by vm_compute. Qed.

(** C4: the grid has exactly the 25 keys ["x-y"] with [x] and [y] from 1 to
    5, whatever the input; an item whose [x] or [y] is outside [[1, 5]]
    changes nothing; the cell [(a, b)] holds, in input order, the items
    with those coordinates, and counts them; an item is in the items of no
    other cell than its own; and when every item is in range the 25 counts
    add up to the length of the input. *)
Theorem getGridData_partition (scores : list RFMScore.t) :
  let grid := getGridData scores in
  (∀ k, k ∈ dom grid ↔ ∃ a b, 1 ≤ a ≤ 5 ∧ 1 ≤ b ≤ 5 ∧ k = cellKey a b) ∧
  size grid = 25%nat ∧
  grid = getGridData (filter gridInRange scores) ∧
  (∀ s, ¬ gridInRange s → populate grid s = grid) ∧
  (∀ a b, 1 ≤ a ≤ 5 → 1 ≤ b ≤ 5 →
     grid !! cellKey a b =
     Some (mkCell (Z.of_nat (length (cellItems a b scores))) (cellItems a b scores))) ∧
  (∀ s a b cell, 1 ≤ a ≤ 5 → 1 ≤ b ≤ 5 → grid !! cellKey a b = Some cell →
     (s ∈ items cell ↔ s ∈ scores ∧ RFMScore.x s = a ∧ RFMScore.y s = b)) ∧
  (Forall gridInRange scores → totalCount grid = Z.of_nat (length scores)).
Proof.
  intros grid. subst grid.
  assert (∀ l, dom (getGridData l) = list_to_set gridKeys) as Hdom.
  { intros l. apply set_eq. intros k.
    rewrite elem_of_dom, getGridData_lookup, elem_of_list_to_set.
    destruct (decide (k ∈ gridKeys)) as [Hk | Hk]; split; intros H;
      try done; try (by eexists); try (by destruct H). }
  split; [| split; [| split; [| split; [| split; [| split]]]]].
  - intros k. rewrite Hdom, elem_of_list_to_set. apply gridKeys_spec.
  - rewrite <-size_dom, Hdom, size_list_to_set by apply gridKeys_NoDup. done.
  - apply map_eq. intros k. rewrite !getGridData_lookup.
    destruct (decide (k ∈ gridKeys)) as [Hk | _]; [| done].
    assert (filter (λ s, keyOf s = k) (filter gridInRange scores)
            = filter (λ s, keyOf s = k) scores) as ->; [| done].
    rewrite list_filter_filter. apply list_filter_iff. intros s.
    split; [by intros [? _] |]. intros Heq. split; [done |].
    apply keyOf_in_gridKeys. by rewrite Heq.
  - intros s Hout. unfold populate. fold (keyOf s).
    rewrite getGridData_lookup.
    by rewrite decide_False by (by rewrite keyOf_in_gridKeys).
  - intros a b Ha Hb. by apply getGridData_cell.
  - intros s a b cell Ha Hb Hcell.
    rewrite getGridData_cell in Hcell by done. simplify_eq/=.
    unfold cellItems. rewrite list_elem_of_filter. tauto.
  - intros Hall. rewrite totalCount_getGridData. by rewrite filter_all.
Qed.

Lemma getGridData_partition_witness :
  Forall gridInRange demoScores ∧
  totalCount (getGridData demoScores) = 4 ∧
  getGridData demoScores !! "4-5" =
    Some (mkCell 2 [RFMScore.mk "CUST_001" 4 4 5 4 5; RFMScore.mk "CUST_003" 3 4 5 4 5]).
Proof.
  assert (Forall gridInRange demoScores) as Hin
    by (repeat constructor; simpl; lia).
  assert (1 ≤ 4 ≤ 5) as H4 by lia.
  assert (1 ≤ 5 ≤ 5) as H5 by lia.
  pose proof (getGridData_partition demoScores) as (_ & _ & _ & _ & Hcell & _ & Hsum).
  split; [exact Hin |]. split; [exact (Hsum Hin) | exact (Hcell 4 5 H4 H5)].
Defined.

(** ** The generator *)

Lemma runsTo_ret {A : Type} (a : A) src (Post : A → Prop) :
  unitDraws src → Post a → runsTo (ret a) src Post.
Proof. intros Hsrc Ha. by exists a, src. Qed.

Lemma runsTo_bind {A B : Type} (m : Rand A) (k : A → Rand B) src
    (P : A → Prop) (Q : B → Prop) :
  runsTo m src P →
  (∀ a src', P a → unitDraws src' → runsTo (k a) src' Q) →
  runsTo (bind m k) src Q.
Proof.
  intros (a & src' & Hm & Ha & Hsrc') Hk.
  destruct (Hk a src' Ha Hsrc') as (b & src'' & Hb & HQ & Hsrc'').
  exists b, src''. unfold bind. by rewrite Hm.
Qed.

Lemma runsTo_weaken {A : Type} (m : Rand A) src (P Q : A → Prop) :
  runsTo m src P → (∀ a, P a → Q a) → runsTo m src Q.
Proof. intros (a & src' & Hm & Ha & Hsrc') HPQ. exists a, src'. auto. Qed.

Lemma runsTo_randomBelow k src :
  unitDraws src → 0 < k → runsTo (randomBelow k) src (λ n, 0 ≤ n < k).
Proof.
  intros Hsrc Hk. unfold randomBelow, bind, Math_random, ret.
  eexists _, _. split; [reflexivity |]. split; [| intros n; apply Hsrc].
  destruct (Hsrc 0%nat) as [H0 H1].
  assert (0 < inject_Z k)%Q as Hk' by (rewrite (Zlt_Qlt 0 k) in Hk; exact Hk).
  split.
  - rewrite <-(Qfloor_Z 0). apply Qfloor_resp_le.
    apply Qmult_le_0_compat; [done | by apply Qlt_le_weak].
  - rewrite Zlt_Qlt. eapply Qle_lt_trans; [apply Qfloor_le |].
    rewrite <-(Qmult_1_l (inject_Z k)) at 2.
    by apply Qmult_lt_compat_r.
Qed.

(** A loop keeps what each of its turns keeps. *)
Lemma runsTo_forLoop {S : Type} (Inv : Z → S → Prop) (body : Z → S → Rand S) n :
  (∀ i s src, Inv i s → unitDraws src → runsTo (body i s) src (Inv (i + 1))) →
  ∀ i s src, Inv i s → unitDraws src →
    runsTo (forLoop n body i s) src (Inv (i + Z.of_nat n)).
Proof.
  intros Hbody. induction n as [| n IH]; intros i s src Hinv Hsrc.
  - simpl. apply runsTo_ret; [done |]. by rewrite Z.add_0_r.
  - cbn [forLoop]. eapply runsTo_bind; [by apply Hbody |].
    intros s' src' Hinv' Hsrc'.
    replace (i + Z.of_nat (Datatypes.S n)) with (i + 1 + Z.of_nat n) by lia.
    by apply IH.
Qed.

(** *** Identifiers *)

Lemma pretty_N_char_zero x : (x < 10)%N → pretty_N_char x = "0"%char → x = 0%N.
Proof. intros Hx Hc. by apply (pretty_N_char_inj x 0). Qed.

(** The decimal string of a positive number starts with a digit that is not
    zero. *)
Lemma pretty_N_go_head x s :
  (0 < x)%N → ∃ c s', pretty_N_go x s = String c s' ∧ c ≠ "0"%char.
Proof.
  revert s. induction (N.lt_wf_0 x) as [x _ IH]; intros s Hx.
  rewrite pretty_N_go_step by done.
  destruct (decide (x `div` 10 = 0)%N) as [Hsmall | Hbig].
  - rewrite Hsmall, pretty_N_go_0. eexists _, _. split; [done |].
    intros Hc. apply pretty_N_char_zero in Hc; [| by apply N.mod_lt].
    apply N.div_small_iff in Hsmall; [| done].
    rewrite N.mod_small in Hc by done. lia.
  - apply IH; [apply N.div_lt; lia | by apply N.neq_0_lt_0].
Qed.

Lemma pretty_positive_head (i : Z) :
  1 ≤ i → ∃ c s', pretty i = String c s' ∧ c ≠ "0"%char.
Proof.
  intros Hi. destruct i as [| p | p]; [lia | | lia].
  unfold pretty, pretty_Z, pretty, pretty_positive, pretty, pretty_N.
  rewrite decide_False by done. by apply pretty_N_go_head.
Qed.

Lemma stripZeros_repeatChar n s : stripZeros (repeatChar n "0" +:+ s) = stripZeros s.
Proof.
  induction n as [| n IH]; [done |].
  cbn [repeatChar]. cbv [String.append]. fold String.append.
  cbn [stripZeros]. by rewrite decide_True.
Qed.

Lemma stripZeros_padStart (i : Z) :
  1 ≤ i → stripZeros (padStart 3 "0" (pretty i)) = pretty i.
Proof.
  intros Hi. unfold padStart. rewrite stripZeros_repeatChar.
  destruct (pretty_positive_head i Hi) as (c & s' & -> & Hc).
  cbn [stripZeros]. by rewrite decide_False.
Qed.

Lemma customerId_inj i j : 1 ≤ i → 1 ≤ j → customerId i = customerId j → i = j.
Proof.
  intros Hi Hj. unfold customerId. intros Heq.
  cbv [String.append] in Heq. fold String.append in Heq.
  simplify_eq.
  apply (inj pretty).
  by rewrite <-(stripZeros_padStart i), <-(stripZeros_padStart j), Heq.
Qed.

Lemma repeatChar_length n c : String.length (repeatChar n c) = n.
Proof. induction n as [| n IH]; simpl; congruence. Qed.

Lemma string_app_length (s t : string) :
  String.length (s +:+ t) = (String.length s + String.length t)%nat.
Proof.
  induction s as [| c s IH]; [done |].
  cbv [String.append]. fold String.append. simpl. by rewrite IH.
Qed.

Lemma padStart_length n c s :
  String.length (padStart n c s) = Nat.max n (String.length s).
Proof. unfold padStart. rewrite string_app_length, repeatChar_length. lia. Qed.

Lemma customerId_NoDup (n : Z) : NoDup (customerId <$> seqZ 1 n).
Proof.
  apply NoDup_fmap_2_strong; [| apply NoDup_seqZ].
  intros i j Hi%elem_of_seqZ Hj%elem_of_seqZ. apply customerId_inj; lia.
Qed.

(** *** The three loops *)

Lemma baseRecord_runs i data src :
  baseInv i data → unitDraws src →
  runsTo (baseRecord i data) src (baseInv (i + 1)).
Proof.
  intros (Hi & Hids & Hrange) Hsrc. unfold baseRecord.
  eapply runsTo_bind; [by apply runsTo_randomBelow |]. intros r src1 Hr Hsrc1.
  eapply runsTo_bind; [by apply runsTo_randomBelow |]. intros f src2 Hf Hsrc2.
  eapply runsTo_bind; [by apply runsTo_randomBelow |]. intros m src3 Hm Hsrc3.
  apply runsTo_ret; [done |]. split; [lia |]. split.
  - rewrite fmap_app, Hids. replace (i + 1 - 1) with ((i - 1) + 1) by lia.
    rewrite seqZ_app by lia. rewrite fmap_app. f_equal.
    replace (1 + (i - 1)) with i by lia. done.
  - apply Forall_app. split; [done |]. constructor; [| done].
    unfold recordInRange. simpl in *. lia.
Qed.

Lemma overwriteAt_runs ids data index update src :
  overwriteInv ids data → unitDraws src →
  0 ≤ index < Z.of_nat (length data) →
  (∀ r, RFMData.id (update r) = RFMData.id r) →
  (∀ r, recordInRange r → recordInRange (update r)) →
  runsTo (overwriteAt data index update) src (overwriteInv ids).
Proof.
  intros (Hne & Hids & Hrange) Hsrc Hindex Hid Hupd. unfold overwriteAt.
  rewrite decide_True by lia.
  destruct (lookup_lt_is_Some_2 data (Z.to_nat index)) as [r Hr]; [lia |].
  rewrite Hr. apply runsTo_ret; [done |]. split; [| split].
  - intros Hnil. apply (f_equal length) in Hnil.
    rewrite length_insert in Hnil. by destruct data.
  - rewrite list_fmap_insert, Hid, <-Hids. apply list_insert_id.
    by rewrite list_lookup_fmap, Hr.
  - apply Forall_insert; [done |]. apply Hupd.
    by eapply Forall_lookup_1.
Qed.

Lemma length_pos_of_ne_nil {A : Type} (l : list A) :
  l ≠ [] → 0 < Z.of_nat (length l).
Proof. destruct l; [done | simpl; lia]. Qed.

Lemma vipOverwrite_runs ids i data src :
  overwriteInv ids data → unitDraws src →
  runsTo (vipOverwrite i data) src (overwriteInv ids).
Proof.
  intros Hinv Hsrc. unfold vipOverwrite.
  pose proof (length_pos_of_ne_nil data (proj1 Hinv)) as Hlen.
  eapply runsTo_bind; [by apply runsTo_randomBelow |]. intros index src1 Hindex Hsrc1.
  eapply runsTo_bind; [by apply runsTo_randomBelow |]. intros f src2 Hf Hsrc2.
  eapply runsTo_bind; [by apply runsTo_randomBelow |]. intros m src3 Hm Hsrc3.
  apply (overwriteAt_runs ids); try done.
  intros r (Hr & _ & _). unfold recordInRange. simpl in *. lia.
Qed.

Lemma inactiveOverwrite_runs ids i data src :
  overwriteInv ids data → unitDraws src →
  runsTo (inactiveOverwrite i data) src (overwriteInv ids).
Proof.
  intros Hinv Hsrc. unfold inactiveOverwrite.
  pose proof (length_pos_of_ne_nil data (proj1 Hinv)) as Hlen.
  eapply runsTo_bind; [by apply runsTo_randomBelow |]. intros index src1 Hindex Hsrc1.
  eapply runsTo_bind; [by apply runsTo_randomBelow |]. intros r src2 Hr Hsrc2.
  eapply runsTo_bind; [by apply runsTo_randomBelow |]. intros f src3 Hf Hsrc3.
  eapply runsTo_bind; [by apply runsTo_randomBelow |]. intros m src4 Hm Hsrc4.
  apply (overwriteAt_runs ids); try done.
  intros old _. unfold recordInRange. simpl in *. lia.
Qed.

Lemma generateMockRFMData_runs count src :
  1 ≤ count → unitDraws src →
  runsTo (generateMockRFMData count) src
    (overwriteInv (customerId <$> seqZ 1 count)).
Proof.
  intros Hcount Hsrc. unfold generateMockRFMData.
  eapply runsTo_bind.
  { apply (runsTo_forLoop baseInv); [apply baseRecord_runs | | done].
    split; [lia |]. split; [done | constructor]. }
  intros data src1 (_ & Hids & Hrange) Hsrc1.
  replace (1 + Z.of_nat (Z.to_nat count) - 1) with count in Hids by lia.
  assert (overwriteInv (customerId <$> seqZ 1 count) data) as Hinv.
  { split; [| done]. intros ->. apply (f_equal length) in Hids.
    rewrite !length_fmap, length_seqZ in Hids. simpl in Hids. lia. }
  eapply runsTo_bind.
  { apply (runsTo_forLoop (λ _, overwriteInv (customerId <$> seqZ 1 count)));
      [intros; by apply vipOverwrite_runs | exact Hinv | done]. }
  intros data2 src2 Hinv2 Hsrc2. cbv beta in Hinv2.
  eapply runsTo_weaken.
  { apply (runsTo_forLoop (λ _, overwriteInv (customerId <$> seqZ 1 count)));
      [intros; by apply inactiveOverwrite_runs | exact Hinv2 | done]. }
  done.
Qed.

(** C8: for a count of at least 1 and any draws in [[0, 1)], the generator
    returns exactly [count] records; their ids are, in order, those of 1,
    2, ..., [count], all distinct, each the decimal number padded with
    zeros to three digits or more after ["CUST_"]; and after the VIP and
    inactive overwrites every record has its recency in [[1, 365]] or
    [[300, 400]], its frequency in [[1, 50]] and its monetary value in
    [[10, 10000]]. *)
Theorem generateMockRFMData_records (count : Z) (src : RandomSource) :
  1 ≤ count → unitDraws src →
  ∃ data src',
    generateMockRFMData count src = Some (data, src') ∧
    Z.of_nat (length data) = count ∧
    RFMData.id <$> data = customerId <$> seqZ 1 count ∧
    NoDup (RFMData.id <$> data) ∧
    (∀ i, 1 ≤ i → ∃ digits,
       customerId i = "CUST_" +:+ digits ∧
       stripZeros digits = pretty i ∧
       String.length digits = Nat.max 3 (String.length (pretty i))) ∧
    Forall recordInRange data.
Proof.
  intros Hcount Hsrc.
  destruct (generateMockRFMData_runs count src Hcount Hsrc)
    as (data & src' & Hrun & (_ & Hids & Hrange) & _).
  exists data, src'. split; [done |]. split; [| split; [done | split; [| split; [| done]]]].
  - apply (f_equal length) in Hids.
    rewrite !length_fmap, length_seqZ in Hids. lia.
  - rewrite Hids. apply customerId_NoDup.
  - intros i Hi. exists (padStart 3 "0" (pretty i)).
    split; [done |]. split; [by apply stripZeros_padStart | apply padStart_length].
Qed.

Lemma demoSource_unitDraws : unitDraws demoSource.
Proof.
  intros n. unfold demoSource, Qle, Qlt. simpl.
  pose proof (Nat.mod_upper_bound (n * 37 + 11) 101). lia.
Qed.

Lemma generateMockRFMData_records_witness :
  (1 ≤ 25 ∧ unitDraws demoSource) ∧
  ∃ data src',
    generateMockRFMData 25 demoSource = Some (data, src') ∧
    Z.of_nat (length data) = 25 ∧
    NoDup (RFMData.id <$> data) ∧
    Forall recordInRange data.
Proof.
  assert (1 ≤ 25) as Hcount by lia.
  split; [split; [exact Hcount | exact demoSource_unitDraws] |].
  destruct (generateMockRFMData_records 25 demoSource Hcount demoSource_unitDraws)
    as (data & src' & Hrun & Hlen & _ & Hnodup & _ & Hrange).
  exists data, src'.
  split; [exact Hrun |]. split; [exact Hlen |]. split; [exact Hnodup | exact Hrange].
Defined.

(** The first identifiers, and one past the three-digit padding. *)
Example customerId_examples :
  customerId <$> [1; 2; 10; 100; 1000] =
  ["CUST_001"; "CUST_002"; "CUST_010"; "CUST_100"; "CUST_1000"].
Proof. by vm_compute. Qed.

(** * Further properties of the scorer *)

Lemma calculatePercentile_perm v array1 array2 :
  array1 ≡ₚ array2 → calculatePercentile v array1 = calculatePercentile v array2.
Proof.
  intros Hperm. unfold calculatePercentile.
  assert (sort_ascending array1 = sort_ascending array2) as ->; [| done].
  apply (sortedAscending_unique array2); [| apply sort_ascending_sorted].
  destruct (sort_ascending_sorted array1) as [Hp Hs]. split; [| done].
  by rewrite Hp.
Qed.

(** The percentile as a function of the number of strictly smaller values. *)
Lemma calculatePercentile_rank v array :
  (Forall (λ x, x < v) array ∧ calculatePercentile v array = num_1) ∨
  (Exists (λ x, v ≤ x) array ∧
   (countBelow v array < length array)%nat ∧
   calculatePercentile v array =
     if decide (countBelow v array = 0%nat) then num_0
     else Finite (Qc_of_Z (Z.of_nat (countBelow v array)) /
                  Qc_of_Z (Z.of_nat (length array) - 1))%Qc).
Proof.
  pose proof (sort_ascending_sorted array) as Hs.
  pose proof Hs as [Hperm _].
  destruct (findIndex_cases (λ item, bool_decide (v ≤ item)) (sort_ascending array))
    as [[_ Hall] | (k & _ & Hk)].
  - left. split.
    + rewrite <-Hperm. eapply Forall_impl; [exact Hall |].
      intros x Hx. simpl in Hx. rewrite bool_decide_eq_false in Hx. lia.
    + apply (calculatePercentile_none _ _ _ Hs).
      intros i [(x & Hx & Hle) _]. rewrite Forall_forall in Hall.
      apply list_elem_of_lookup_2 in Hx. specialize (Hall _ Hx).
      rewrite bool_decide_eq_false in Hall. lia.
  - right. pose proof (firstHit_lt _ _ _ Hk) as Hlt.
    apply firstPositionAtLeast_firstHit in Hk.
    pose proof (firstPositionAtLeast_countBelow _ _ _
                  (sortedAscending_strongly _ _ Hs) Hk) as Hc.
    assert (countBelow v array = k) as Hc'.
    { rewrite <-Hc. unfold countBelow. by rewrite Hperm. }
    rewrite (calculatePercentile_at _ _ _ _ Hs Hk), Hc'.
    rewrite sort_ascending_length in Hlt.
    split; [| done].
    destruct Hk as [(x & Hx & Hle) _].
    apply Exists_exists. exists x. split; [| done].
    rewrite <-Hperm. by eapply list_elem_of_lookup_2.
Qed.

Lemma countBelow_mono v w array :
  v ≤ w → (countBelow v array ≤ countBelow w array)%nat.
Proof. intros Hvw. apply filter_length_mono. intros x. lia. Qed.

Lemma Qc_of_Z_quotient_le a b d :
  a ≤ b → 0 < d → (Qc_of_Z a / Qc_of_Z d ≤ Qc_of_Z b / Qc_of_Z d)%Qc.
Proof.
  intros Hab Hd. unfold Qcle. simpl. rewrite !Qred_correct.
  assert (0 < inject_Z d)%Q as Hd' by (rewrite (Zlt_Qlt 0 d) in Hd; exact Hd).
  apply Qmult_le_compat_r; [by rewrite <-Zle_Qle |].
  apply Qlt_le_weak, Qinv_lt_0_compat, Hd'.
Qed.

Lemma calculatePercentile_mono v w array :
  v ≤ w →
  ∃ p q, calculatePercentile v array = Finite p ∧
         calculatePercentile w array = Finite q ∧ (p ≤ q)%Qc.
Proof.
  intros Hvw.
  destruct (calculatePercentile_rank w array) as [[Hall ->] | (Hex & Hlt & ->)].
  - destruct (calculatePercentile_rank v array) as [[_ ->] | (_ & Hltv & ->)].
    + by exists (Qc_of_Z 1), (Qc_of_Z 1).
    + destruct (decide (countBelow v array = 0%nat)).
      * by exists (Qc_of_Z 0), (Qc_of_Z 1).
      * eexists _, (Qc_of_Z 1). split; [done |]. split; [done |].
        apply Qc_of_Z_quotient_unit; lia.
  - destruct (calculatePercentile_rank v array) as [[Hall _] | (_ & Hltv & ->)].
    + apply Exists_exists in Hex as (x & Hx & Hle).
      rewrite Forall_forall in Hall. specialize (Hall _ Hx). lia.
    + pose proof (countBelow_mono v w array Hvw) as Hmono.
      destruct (decide (countBelow v array = 0%nat)) as [Hv0 | Hv0].
      * destruct (decide (countBelow w array = 0%nat)).
        -- by exists (Qc_of_Z 0), (Qc_of_Z 0).
        -- eexists (Qc_of_Z 0), _. split; [done |]. split; [done |].
           apply Qc_of_Z_quotient_unit; lia.
      * rewrite decide_False by lia.
        eexists _, _. split; [done |]. split; [done |].
        apply Qc_of_Z_quotient_le; lia.
Qed.

Lemma percentileToScore_mono (p q : Qc) :
  (p ≤ q)%Qc →
  percentileToScore (Finite p) false ≤ percentileToScore (Finite q) false ∧
  percentileToScore (Finite q) true ≤ percentileToScore (Finite p) true.
Proof.
  intros Hpq. unfold percentileToScore. rewrite !js_le_fifths.
  repeat case_bool_decide; split; try lia; exfalso; to_Q; lra.
Qed.

Lemma score_mono v w array :
  v ≤ w →
  percentileToScore (calculatePercentile v array) false ≤
    percentileToScore (calculatePercentile w array) false ∧
  percentileToScore (calculatePercentile w array) true ≤
    percentileToScore (calculatePercentile v array) true.
Proof.
  intros Hvw.
  destruct (calculatePercentile_mono v w array Hvw) as (p & q & -> & -> & Hpq).
  by apply percentileToScore_mono.
Qed.

Lemma calculateRFMScores_lookup data i item :
  data !! i = Some item →
  calculateRFMScores data !! i =
  Some (RFMScore.mk (RFMData.id item)
    (percentileToScore
       (calculatePercentile (RFMData.recency item) (map RFMData.recency data)) true)
    (percentileToScore
       (calculatePercentile (RFMData.frequency item) (map RFMData.frequency data)) false)
    (percentileToScore
       (calculatePercentile (RFMData.monetary item) (map RFMData.monetary data)) false)
    (percentileToScore
       (calculatePercentile (RFMData.frequency item) (map RFMData.frequency data)) false)
    (percentileToScore
       (calculatePercentile (RFMData.monetary item) (map RFMData.monetary data)) false)).
Proof.
  intros Hi. unfold calculateRFMScores.
  change (@map) with (@fmap list _). by rewrite list_lookup_fmap, Hi.
Qed.

(** X1: scores follow the values.  Of two customers of one dataset, the one
    with the higher frequency (monetary value) never has the lower frequency
    (monetary) score, and the one with more days since the last purchase
    never has the higher recency score. *)
Theorem scores_follow_values (data : list RFMData.t) i j r1 r2 s1 s2 :
  data !! i = Some r1 → data !! j = Some r2 →
  calculateRFMScores data !! i = Some s1 →
  calculateRFMScores data !! j = Some s2 →
  (RFMData.frequency r1 ≤ RFMData.frequency r2 →
     RFMScore.frequencyScore s1 ≤ RFMScore.frequencyScore s2) ∧
  (RFMData.monetary r1 ≤ RFMData.monetary r2 →
     RFMScore.monetaryScore s1 ≤ RFMScore.monetaryScore s2) ∧
  (RFMData.recency r1 ≤ RFMData.recency r2 →
     RFMScore.recencyScore s2 ≤ RFMScore.recencyScore s1).
Proof.
  intros H1 H2 Hs1 Hs2.
  rewrite (calculateRFMScores_lookup _ _ _ H1) in Hs1.
  rewrite (calculateRFMScores_lookup _ _ _ H2) in Hs2.
  simplify_eq/=. repeat split; intros Hle; by apply score_mono.
Qed.

Lemma scores_follow_values_witness :
  let data := [RFMData.mk "a" 10 3 50; RFMData.mk "b" 20 7 40] in
  (data !! 0%nat = Some (RFMData.mk "a" 10 3 50) ∧
   data !! 1%nat = Some (RFMData.mk "b" 20 7 40)) ∧
  ∀ s1 s2,
    calculateRFMScores data !! 0%nat = Some s1 →
    calculateRFMScores data !! 1%nat = Some s2 →
    RFMScore.frequencyScore s1 ≤ RFMScore.frequencyScore s2.
Proof.
  intros data. split; [by split |]. intros s1 s2 Hs1 Hs2.
  apply (proj1 (scores_follow_values data 0 1 _ _ s1 s2 eq_refl eq_refl Hs1 Hs2)).
  simpl. lia.
Defined.

Lemma calculateRFMScores_scoreRecord data :
  calculateRFMScores data =
  scoreRecord (map RFMData.recency data) (map RFMData.frequency data)
              (map RFMData.monetary data) <$> data.
Proof. reflexivity. Qed.

Lemma zip_fmap_self {A B : Type} (f : A → B) (l : list A) :
  zip l (f <$> l) = (λ a, (a, f a)) <$> l.
Proof. induction l as [| a l IH]; [done |]. csimpl. by f_equal. Qed.

(** X2: the order of the records does not matter.  Scoring a rearranged
    dataset pairs every record with the same scored customer as before. *)
Theorem calculateRFMScores_permutation (data data' : list RFMData.t) :
  data ≡ₚ data' →
  zip data (calculateRFMScores data) ≡ₚ zip data' (calculateRFMScores data').
Proof.
  intros Hperm. rewrite !calculateRFMScores_scoreRecord, !zip_fmap_self.
  assert (∀ item,
    scoreRecord (map RFMData.recency data) (map RFMData.frequency data)
                (map RFMData.monetary data) item =
    scoreRecord (map RFMData.recency data') (map RFMData.frequency data')
                (map RFMData.monetary data') item) as Hsame.
  { intros item. unfold scoreRecord.
    rewrite !(calculatePercentile_perm _ (map _ data) (map _ data'))
      by (by apply Permutation_map).
    done. }
  rewrite (list_fmap_ext _ (λ a, (a, scoreRecord (map RFMData.recency data')
             (map RFMData.frequency data') (map RFMData.monetary data') a)) data)
    by (intros _ item _; by rewrite Hsame).
  by apply fmap_Permutation.
Qed.

Lemma calculateRFMScores_permutation_witness :
  let data := [RFMData.mk "a" 10 3 50; RFMData.mk "b" 20 7 40] in
  let data' := [RFMData.mk "b" 20 7 40; RFMData.mk "a" 10 3 50] in
  data ≡ₚ data' ∧
  zip data (calculateRFMScores data) ≡ₚ zip data' (calculateRFMScores data').
Proof.
  intros data data'.
  assert (data ≡ₚ data') as Hperm by apply Permutation_swap.
  split; [exact Hperm | exact (calculateRFMScores_permutation data data' Hperm)].
Defined.

Lemma quotient_le_fifth a d k :
  0 < d → (Qc_of_Z a / Qc_of_Z d ≤ fifth k)%Qc ↔ 5 * a ≤ k * d.
Proof.
  intros Hd. unfold Qcle, fifth. simpl. rewrite !Qred_correct.
  destruct d as [| d | d]; [lia | | lia].
  unfold Qle, Qmult, Qinv, inject_Z. simpl.
  rewrite ?Z.mul_1_r, ?Pos.mul_1_l, ?Pos2Z.inj_mul. lia.
Qed.

Lemma zero_le_fifth k : 0 ≤ k → (Qc_of_Z 0 ≤ fifth k)%Qc.
Proof.
  intros Hk. unfold Qcle, fifth. simpl. rewrite !Qred_correct.
  unfold Qle, Qmult, Qinv, inject_Z. simpl. lia.
Qed.

(** The score of a value of the array, by its rank alone. *)
Lemma score_by_rank v array :
  v ∈ array →
  percentileToScore (calculatePercentile v array) false =
  rankScore (Z.of_nat (countBelow v array)) (Z.of_nat (length array)).
Proof.
  intros Hin.
  destruct (calculatePercentile_rank v array) as [[Hall _] | (_ & Hlt & ->)].
  { rewrite Forall_forall in Hall. specialize (Hall _ Hin). lia. }
  unfold percentileToScore, rankScore.
  destruct (decide (countBelow v array = 0%nat)) as [-> | Hc].
  - unfold num_0. rewrite js_le_fifths.
    rewrite bool_decide_eq_true_2 by (apply zero_le_fifth; lia).
    rewrite decide_True by lia. done.
  - rewrite !js_le_fifths.
    repeat case_bool_decide; repeat case_decide; try done; exfalso.
    all: repeat match goal with
         | H : (_ ≤ fifth _)%Qc |- _ => apply quotient_le_fifth in H; [| lia]
         | H : ¬ (_ ≤ fifth _)%Qc |- _ => rewrite quotient_le_fifth in H by lia
         end; lia.
Qed.

Lemma recency_score_by_rank v array :
  percentileToScore (calculatePercentile v array) true =
  6 - percentileToScore (calculatePercentile v array) false.
Proof. reflexivity. Qed.

Lemma map_lookup_Some {A B : Type} (f : A → B) (l : list A) i a :
  l !! i = Some a → map f l !! i = Some (f a).
Proof. intros Hi. change (map f l) with (f <$> l). by rewrite list_lookup_fmap, Hi. Qed.

Lemma map_elem_of {A B : Type} (f : A → B) (l : list A) a :
  a ∈ l → f a ∈ map f l.
Proof. intros Hin. change (map f l) with (f <$> l). by apply list_elem_of_fmap_2. Qed.

(** X3: the rank arithmetic of the scores.  A customer's frequency and
    monetary scores are [rankScore c n], where [c] counts the customers with
    a strictly smaller value and [n] all customers: 1 while [5c <= n-1], 2
    while [5c <= 2(n-1)], and so on; the recency score is 6 minus that. *)
Theorem scores_by_rank (data : list RFMData.t) i r s :
  data !! i = Some r →
  calculateRFMScores data !! i = Some s →
  let n := Z.of_nat (length data) in
  let below dim := Z.of_nat (countBelow (dim r) (map dim data)) in
  RFMScore.frequencyScore s = rankScore (below RFMData.frequency) n ∧
  RFMScore.monetaryScore s = rankScore (below RFMData.monetary) n ∧
  RFMScore.recencyScore s = 6 - rankScore (below RFMData.recency) n.
Proof.
  intros Hi Hs n below. subst n below.
  rewrite (calculateRFMScores_lookup _ _ _ Hi) in Hs.
  apply (inj Some) in Hs. subst s.
  cbn [RFMScore.frequencyScore RFMScore.monetaryScore RFMScore.recencyScore].
  apply list_elem_of_lookup_2 in Hi.
  rewrite recency_score_by_rank, !score_by_rank by (by apply map_elem_of).
  by rewrite !length_map.
Qed.

Lemma scores_by_rank_witness :
  let data := [RFMData.mk "a" 10 3 50; RFMData.mk "b" 20 7 40] in
  data !! 1%nat = Some (RFMData.mk "b" 20 7 40) ∧
  ∀ s, calculateRFMScores data !! 1%nat = Some s →
       RFMScore.frequencyScore s = 5.
Proof.
  intros data. split; [done |]. intros s Hs.
  exact (proj1 (scores_by_rank data 1 _ s eq_refl Hs)).
Defined.

Lemma countBelow_minimum v array :
  (∀ x, x ∈ array → v ≤ x) → countBelow v array = 0%nat.
Proof.
  intros Hmin. unfold countBelow. rewrite filter_none; [done |].
  apply Forall_forall. intros x Hx. specialize (Hmin _ Hx). lia.
Qed.

Lemma countBelow_strict_maximum v array i :
  array !! i = Some v →
  (∀ j x, j ≠ i → array !! j = Some x → x < v) →
  countBelow v array = (length array - 1)%nat.
Proof.
  intros Hi Hmax. unfold countBelow.
  rewrite <-(take_drop_middle _ _ _ Hi) at 1.
  rewrite filter_app, filter_cons_False by lia.
  rewrite !filter_all.
  - rewrite length_app, length_take, length_drop.
    apply lookup_lt_Some in Hi. lia.
  - apply Forall_lookup. intros j x Hj. rewrite lookup_drop in Hj.
    apply (Hmax (S i + j)%nat); [lia | done].
  - apply Forall_lookup. intros j x Hj.
    apply lookup_take_Some in Hj as [Hj Hlt].
    apply (Hmax j); [lia | done].
Qed.

(** X4: the lowest value always takes the lowest rank.  A customer whose
    frequency (monetary value) is the smallest of the dataset, tied or not,
    has frequency (monetary) score 1, and the customer with the fewest days
    since the last purchase has recency score 5; so a dataset with one
    record, or one in which a dimension is constant, scores that dimension
    1 (recency 5) throughout. *)
Theorem lowest_value_scores (data : list RFMData.t) i r s :
  data !! i = Some r →
  calculateRFMScores data !! i = Some s →
  ((∀ r', r' ∈ data → RFMData.frequency r ≤ RFMData.frequency r') →
     RFMScore.frequencyScore s = 1) ∧
  ((∀ r', r' ∈ data → RFMData.monetary r ≤ RFMData.monetary r') →
     RFMScore.monetaryScore s = 1) ∧
  ((∀ r', r' ∈ data → RFMData.recency r ≤ RFMData.recency r') →
     RFMScore.recencyScore s = 5).
Proof.
  intros Hi Hs.
  rewrite (calculateRFMScores_lookup _ _ _ Hi) in Hs.
  apply (inj Some) in Hs. subst s.
  cbn [RFMScore.frequencyScore RFMScore.monetaryScore RFMScore.recencyScore].
  apply list_elem_of_lookup_2 in Hi.
  assert (∀ dim : RFMData.t → Z,
    (∀ r', r' ∈ data → dim r ≤ dim r') →
    percentileToScore (calculatePercentile (dim r) (map dim data)) false = 1) as Hlow.
  { intros dim Hmin. rewrite score_by_rank by (by apply map_elem_of).
    rewrite countBelow_minimum.
    - unfold rankScore. rewrite decide_True; [done |].
      rewrite length_map. destruct data; [by apply elem_of_nil in Hi | simpl; lia].
    - intros x Hx. change (map dim data) with (dim <$> data) in Hx.
      apply list_elem_of_fmap in Hx as (r' & -> & Hr'). by apply Hmin. }
  split; [| split]; intros Hmin.
  - by apply Hlow.
  - by apply Hlow.
  - rewrite recency_score_by_rank, Hlow by done. done.
Qed.

Lemma lowest_value_scores_witness :
  let data := [RFMData.mk "a" 10 7 50; RFMData.mk "b" 10 7 40] in
  data !! 0%nat = Some (RFMData.mk "a" 10 7 50) ∧
  ∀ s, calculateRFMScores data !! 0%nat = Some s →
       RFMScore.frequencyScore s = 1 ∧ RFMScore.recencyScore s = 5.
Proof.
  intros data. split; [done |]. intros s Hs.
  destruct (lowest_value_scores data 0 _ s eq_refl Hs) as (Hf & _ & Hr).
  split.
  - apply Hf. intros r' Hr'. apply list_elem_of_In in Hr'. simpl in Hr'.
    destruct Hr' as [<- | [<- | []]]; simpl; lia.
  - apply Hr. intros r' Hr'. apply list_elem_of_In in Hr'. simpl in Hr'.
    destruct Hr' as [<- | [<- | []]]; simpl; lia.
Defined.

(** X5: a strictly highest value takes the highest rank.  In a dataset of at
    least two records, the one customer whose frequency (monetary value)
    exceeds all the others has frequency (monetary) score 5, and the one
    with strictly the most days since the last purchase has recency
    score 1. *)
Theorem strictly_highest_value_scores (data : list RFMData.t) i r s :
  data !! i = Some r →
  calculateRFMScores data !! i = Some s →
  (2 ≤ length data)%nat →
  ((∀ j r', j ≠ i → data !! j = Some r' →
      RFMData.frequency r' < RFMData.frequency r) →
     RFMScore.frequencyScore s = 5) ∧
  ((∀ j r', j ≠ i → data !! j = Some r' →
      RFMData.monetary r' < RFMData.monetary r) →
     RFMScore.monetaryScore s = 5) ∧
  ((∀ j r', j ≠ i → data !! j = Some r' →
      RFMData.recency r' < RFMData.recency r) →
     RFMScore.recencyScore s = 1).
Proof.
  intros Hi Hs Hlen.
  rewrite (calculateRFMScores_lookup _ _ _ Hi) in Hs.
  apply (inj Some) in Hs. subst s.
  cbn [RFMScore.frequencyScore RFMScore.monetaryScore RFMScore.recencyScore].
  assert (∀ dim : RFMData.t → Z,
    (∀ j r', j ≠ i → data !! j = Some r' → dim r' < dim r) →
    percentileToScore (calculatePercentile (dim r) (map dim data)) false = 5) as Hhigh.
  { intros dim Hmax.
    rewrite score_by_rank by (apply map_elem_of; by eapply list_elem_of_lookup_2).
    rewrite (countBelow_strict_maximum _ _ i).
    - rewrite length_map. unfold rankScore. repeat case_decide; lia.
    - by apply map_lookup_Some.
    - intros j x Hj Hx. change (map dim data) with (dim <$> data) in Hx.
      rewrite list_lookup_fmap in Hx.
      destruct (data !! j) as [r' |] eqn:Hr'; simplify_eq/=. by eapply Hmax. }
  split; [| split]; intros Hmax.
  - by apply Hhigh.
  - by apply Hhigh.
  - rewrite recency_score_by_rank, Hhigh by done. done.
Qed.

Lemma strictly_highest_value_scores_witness :
  let data := [RFMData.mk "a" 10 3 50; RFMData.mk "b" 20 7 40] in
  (data !! 1%nat = Some (RFMData.mk "b" 20 7 40) ∧ (2 ≤ length data)%nat) ∧
  ∀ s, calculateRFMScores data !! 1%nat = Some s →
       RFMScore.frequencyScore s = 5.
Proof.
  intros data.
  assert (2 ≤ length data)%nat as Hlen by (simpl; lia).
  split; [by split |]. intros s Hs.
  apply (proj1 (strictly_highest_value_scores data 1 _ s eq_refl Hs Hlen)).
  intros [| [| j]] r' Hj Hr'; simplify_eq/=; lia.
Defined.

(** A tie at the top keeps everyone below 5: with frequencies 1, 2, 2 the two
    best customers score 3. *)
Example tied_highest_value_scores :
  RFMScore.frequencyScore <$>
    calculateRFMScores [RFMData.mk "a" 1 1 1; RFMData.mk "b" 1 2 1; RFMData.mk "c" 1 2 1]
  = [1; 3; 3].
Proof. by vm_compute. Qed.

(** * Further properties of the filter and the grid *)

Lemma calculateRFMScores_in_range data :
  Forall scoresInRange (calculateRFMScores data) ∧
  Forall gridInRange (calculateRFMScores data).
Proof.
  rewrite calculateRFMScores_scoreRecord.
  split; apply Forall_fmap, Forall_forall; intros item _.
  - repeat split; apply percentileToScore_range.
  - repeat split; apply percentileToScore_range.
Qed.

(** X6: filtering what the scorer returns.  Whatever the integer criteria,
    the filter keeps exactly the scored customers that reach all three
    thresholds; the default criteria 1, 1, 1 keep every customer, and the
    criteria 5, 5, 5 keep the customers whose three scores are all 5. *)
Theorem filterRFMScores_of_scored (data : list RFMData.t) (r f m : Z) :
  let scores := calculateRFMScores data in
  filterRFMScores scores (Filters.mk (Some r) (Some f) (Some m)) =
    filter (meetsCriteria r f m) scores ∧
  filterRFMScores scores (Filters.mk (Some 1) (Some 1) (Some 1)) = scores ∧
  filterRFMScores scores (Filters.mk (Some 5) (Some 5) (Some 5)) =
    filter (λ s, RFMScore.recencyScore s = 5 ∧ RFMScore.frequencyScore s = 5 ∧
                 RFMScore.monetaryScore s = 5) scores.
Proof.
  intros scores. subst scores.
  pose proof (calculateRFMScores_in_range data) as [Hrange _].
  rewrite !filterRFMScores_meetsCriteria by done.
  split; [done |]. split.
  - apply filter_all. eapply Forall_impl; [exact Hrange |].
    unfold scoresInRange, meetsCriteria. intros s. lia.
  - revert Hrange. generalize (calculateRFMScores data). intros scores Hrange.
    induction Hrange as [| s scores Hs _ IH]; [done |].
    rewrite !filter_cons, IH. unfold scoresInRange in Hs.
    destruct (decide (meetsCriteria 5 5 5 s)) as [Hm | Hm];
      unfold meetsCriteria in Hm.
    + rewrite decide_True by lia. done.
    + rewrite decide_False by lia. done.
Qed.

Lemma belowThreshold_effective threshold score :
  belowThreshold (effectiveThreshold threshold) score = belowThreshold threshold score.
Proof. by destruct threshold as [[| p | p] |]. Qed.

(** X7: missing and zero thresholds.  Criteria without any threshold keep
    every record, whatever its scores are, and a threshold of 0 acts as a
    missing one: it is not compared, even with a negative score. *)
Theorem filterRFMScores_missing_threshold (scores : list RFMScore.t)
    (r f m : option Z) :
  filterRFMScores scores (Filters.mk None None None) = scores ∧
  filterRFMScores scores (Filters.mk r f m) =
  filterRFMScores scores
    (Filters.mk (effectiveThreshold r) (effectiveThreshold f) (effectiveThreshold m)).
Proof.
  split.
  - unfold filterRFMScores. simpl. induction scores as [| s scores IH]; [done |].
    simpl. by rewrite IH.
  - unfold filterRFMScores. simpl. apply List.filter_ext. intros s.
    by rewrite !belowThreshold_effective.
Qed.

(** A record with the negative score -1 passes the threshold 0. *)
Example zero_threshold_not_compared :
  filterRFMScores [RFMScore.mk "x" (-1) 3 3 3 3]
    (Filters.mk (Some 0) (Some 1) (Some 1)) = [RFMScore.mk "x" (-1) 3 3 3 3].
Proof. reflexivity. Qed.

Lemma List_filter_sublist {A : Type} (p : A → bool) (l : list A) :
  sublist (List.filter p l) l.
Proof.
  induction l as [| a l IH]; [constructor |].
  simpl. destruct (p a); by constructor.
Qed.

Lemma List_filter_idem {A : Type} (p : A → bool) (l : list A) :
  List.filter p (List.filter p l) = List.filter p l.
Proof.
  induction l as [| a l IH]; [done |].
  simpl. destruct (p a) eqn:Hpa; [| done]. simpl. by rewrite Hpa, IH.
Qed.

(** X8: the filter only removes.  For any criteria and any scores, the
    result is a subsequence of the input (same records, same order, nothing
    added), and filtering the result again with the same criteria changes
    nothing. *)
Theorem filterRFMScores_sublist (scores : list RFMScore.t) (filters : Filters.t) :
  sublist (filterRFMScores scores filters) scores ∧
  filterRFMScores (filterRFMScores scores filters) filters =
    filterRFMScores scores filters.
Proof.
  unfold filterRFMScores. split; [apply List_filter_sublist | apply List_filter_idem].
Qed.

Lemma gridInRange_cell scores s :
  gridInRange s → s ∈ scores →
  ∃ cell, getGridData scores !! cellKey (RFMScore.x s) (RFMScore.y s) = Some cell ∧
          s ∈ items cell.
Proof.
  intros [Hx Hy] Hin. eexists. split; [by apply getGridData_cell |].
  simpl. unfold cellItems. by apply list_elem_of_filter.
Qed.

(** X9: from the scorer through the filter to the grid.  Whatever the
    criteria, every customer the filter lets through is counted once: the
    25 counts of the grid add up to the number of filtered customers, and
    each of them is among the items of the cell of its frequency and
    monetary scores. *)
Theorem getGridData_of_filtered_scores (data : list RFMData.t) (filters : Filters.t) :
  let shown := filterRFMScores (calculateRFMScores data) filters in
  totalCount (getGridData shown) = Z.of_nat (length shown) ∧
  ∀ s, s ∈ shown →
    ∃ cell,
      getGridData shown !!
        cellKey (RFMScore.frequencyScore s) (RFMScore.monetaryScore s) = Some cell ∧
      s ∈ items cell.
Proof.
  intros shown.
  pose proof (calculateRFMScores_in_range data) as [_ Hgrid].
  assert (∀ s, s ∈ shown →
            gridInRange s ∧ RFMScore.x s = RFMScore.frequencyScore s ∧
            RFMScore.y s = RFMScore.monetaryScore s) as Hshown.
  { intros s Hs. subst shown. unfold filterRFMScores in Hs.
    apply list_elem_of_In, filter_In in Hs as [Hs _]. apply list_elem_of_In in Hs.
    split; [by eapply Forall_forall in Hgrid |].
    rewrite calculateRFMScores_scoreRecord in Hs.
    by apply list_elem_of_fmap in Hs as (item & -> & _). }
  split.
  - rewrite totalCount_getGridData, filter_all; [done |].
    apply Forall_forall. intros s Hs. by apply Hshown.
  - intros s Hs. destruct (Hshown s Hs) as (Hin & Hx & Hy).
    rewrite <-Hx, <-Hy. by apply gridInRange_cell.
Qed.

(** * The grid component *)

Lemma fmap_foldl_insert {V W : Type} (f : V → W) (v : V) (keys : list string)
    (m : gmap string V) :
  f <$> foldl (λ g key, <[key := v]> g) m keys =
  foldl (λ g key, <[key := f v]> g) (f <$> m) keys.
Proof.
  revert m. induction keys as [| key keys IH]; intros m; [done |].
  cbn [foldl]. by rewrite IH, fmap_insert.
Qed.

Lemma RFMGrid_initGrid_flat :
  RFMGrid.initGrid =
  foldl (λ g key, <[key := RFMGrid.mkCell 0 [] false]> g) ∅ gridKeys.
Proof. reflexivity. Qed.

Lemma RFMGrid_initGrid :
  RFMGrid.initGrid = (λ c, RFMGrid.mkCell (count c) (items c) false) <$> initGrid.
Proof.
  rewrite RFMGrid_initGrid_flat, initGrid_flat, fmap_foldl_insert.
  by rewrite fmap_empty.
Qed.

Lemma RFMGrid_generateGridData scoreData :
  RFMGrid.generateGridData scoreData =
  (λ c, RFMGrid.mkCell (count c) (items c) false) <$> getGridData scoreData.
Proof.
  induction scoreData as [| s scoreData IH] using rev_ind.
  - apply RFMGrid_initGrid.
  - rewrite getGridData_snoc. unfold RFMGrid.generateGridData in *.
    rewrite foldl_snoc, IH. unfold RFMGrid.populate, populate.
    rewrite lookup_fmap.
    destruct (getGridData scoreData !! _) as [cell |]; [| done].
    simpl. by rewrite fmap_insert.
Qed.

(** ** Toggling ids *)

Local Set Warnings "-clear-no-such-hyp,-level-tolerance".

Lemma indexOf_absent l id : id ∉ l → RFMGrid.indexOf l id = -1.
Proof.
  intros Hnin. unfold RFMGrid.indexOf.
  destruct (findIndex_cases (λ other, bool_decide (other = id)) l)
    as [[-> _] | (k & _ & (a & Ha & Hp) & _)]; [done |].
  apply bool_decide_eq_true in Hp as ->.
  destruct Hnin. by eapply list_elem_of_lookup_2.
Qed.

Lemma indexOf_present l id :
  id ∈ l →
  ∃ k, RFMGrid.indexOf l id = Z.of_nat k ∧ l !! k = Some id ∧ id ∉ take k l.
Proof.
  intros Hin. unfold RFMGrid.indexOf.
  destruct (findIndex_cases (λ other, bool_decide (other = id)) l)
    as [[_ Hall] | (k & -> & (a & Ha & Hp) & Hbefore)].
  - rewrite Forall_forall in Hall. specialize (Hall _ Hin).
    by rewrite bool_decide_eq_false in Hall.
  - apply bool_decide_eq_true in Hp as ->. exists k. split; [done |]. split; [done |].
    intros (j & Hj)%list_elem_of_lookup_1.
    apply lookup_take_Some in Hj as [Hj Hlt].
    specialize (Hbefore _ _ Hlt Hj). by rewrite bool_decide_eq_false in Hbefore.
Qed.

Lemma toggle_absent l id : id ∉ l → RFMGrid.toggle l id = l ++ [id].
Proof.
  intros Hnin. unfold RFMGrid.toggle. rewrite indexOf_absent by done.
  by rewrite decide_False by lia.
Qed.

Lemma toggle_present l id :
  NoDup l → id ∈ l → RFMGrid.toggle l id = filter (λ x, x ≠ id) l.
Proof.
  intros Hnd Hin. unfold RFMGrid.toggle.
  destruct (indexOf_present l id Hin) as (k & -> & Hk & Hbefore).
  rewrite decide_True by lia. rewrite Nat2Z.id, delete_take_drop.
  pose proof (take_drop_middle _ _ _ Hk) as Hsplit.
  remember (take k l) as l1 eqn:E1. remember (drop (S k) l) as l2 eqn:E2.
  clear E1 E2. subst l.
  apply NoDup_app in Hnd as (_ & _ & Hnd). apply NoDup_cons in Hnd as [Hafter _].
  rewrite filter_app, filter_cons_False by (by intros []).
  rewrite !filter_all; [done | |].
  - apply Forall_forall. by intros x Hx ->.
  - apply Forall_forall. by intros x Hx ->.
Qed.

Lemma toggle_NoDup l id : NoDup l → NoDup (RFMGrid.toggle l id).
Proof.
  intros Hnd. destruct (decide (id ∈ l)) as [Hin | Hnin].
  - rewrite toggle_present by done. by apply NoDup_filter.
  - rewrite toggle_absent by done. apply NoDup_app. split; [done |].
    split; [| apply NoDup_singleton].
    intros x Hx ->%list_elem_of_singleton. done.
Qed.

Lemma toggle_elem_of l id x :
  NoDup l →
  x ∈ RFMGrid.toggle l id ↔ (x ∈ l ∧ x ≠ id) ∨ (x = id ∧ id ∉ l).
Proof.
  intros Hnd. destruct (decide (id ∈ l)) as [Hin | Hnin].
  - rewrite toggle_present by done. rewrite list_elem_of_filter. naive_solver.
  - rewrite toggle_absent by done.
    rewrite elem_of_app, list_elem_of_singleton. naive_solver.
Qed.

(** Toggling distinct ids one after the other flips the membership of each
    of them and of no other id. *)
Lemma foldl_toggle_spec ids l :
  NoDup ids → NoDup l →
  NoDup (foldl RFMGrid.toggle l ids) ∧
  ∀ x, x ∈ foldl RFMGrid.toggle l ids ↔ (x ∈ l ∧ x ∉ ids) ∨ (x ∉ l ∧ x ∈ ids).
Proof.
  intros Hids. revert l. induction Hids as [| id ids Hid _ IH]; intros l Hl.
  - split; [done |]. intros x. rewrite elem_of_nil. naive_solver.
  - cbn [foldl]. destruct (IH _ (toggle_NoDup l id Hl)) as [Hnd Hmem].
    split; [done |]. intros x. rewrite Hmem, toggle_elem_of, elem_of_cons by done.
    destruct (decide (x = id)) as [-> | Hne]; naive_solver.
Qed.



(** ** The cells of the component and the click on one of them *)

Lemma cellKey_in_gridKeys a b :
  cellKey a b ∈ gridKeys ↔ 1 ≤ a ≤ 5 ∧ 1 ≤ b ≤ 5.
Proof.
  rewrite gridKeys_spec. split.
  - intros (a' & b' & Ha & Hb & Hk). by apply cellKey_inj in Hk as [-> ->].
  - intros [Ha Hb]. eauto.
Qed.

Lemma existsb_includes selectedIds (cellScores : list RFMScore.t) :
  existsb (λ item, RFMGrid.includes selectedIds (RFMScore.id item)) cellScores = true ↔
  ∃ s, s ∈ cellScores ∧ RFMScore.id s ∈ selectedIds.
Proof.
  rewrite existsb_exists. unfold RFMGrid.includes.
  setoid_rewrite bool_decide_eq_true. by setoid_rewrite list_elem_of_In.
Qed.

Lemma gridEffect_cell scores selectedIds a b :
  1 ≤ a ≤ 5 → 1 ≤ b ≤ 5 →
  RFMGrid.gridEffect scores selectedIds !! cellKey a b =
  Some (RFMGrid.mkCell (Z.of_nat (length (cellItems a b scores))) (cellItems a b scores)
          (existsb (λ item, RFMGrid.includes selectedIds (RFMScore.id item))
                   (cellItems a b scores))).
Proof.
  intros Ha Hb. unfold RFMGrid.gridEffect.
  rewrite RFMGrid_generateGridData, !lookup_fmap, getGridData_cell by done.
  done.
Qed.

Lemma gridEffect_no_cell scores selectedIds a b :
  ¬ (1 ≤ a ≤ 5 ∧ 1 ≤ b ≤ 5) →
  RFMGrid.gridEffect scores selectedIds !! cellKey a b = None.
Proof.
  intros Hout. unfold RFMGrid.gridEffect.
  rewrite RFMGrid_generateGridData, !lookup_fmap, getGridData_lookup.
  by rewrite decide_False by (by rewrite cellKey_in_gridKeys).
Qed.

(** X10: the component builds the same grid as [getGridData].  Each cell of
    [generateGridData] has the count and the items of the cell of
    [getGridData] under the same key, there are no other cells, and every
    cell starts unselected. *)
Theorem generateGridData_agrees_with_getGridData (scoreData : list RFMScore.t) :
  (∀ key,
     (λ c, mkCell (RFMGrid.count c) (RFMGrid.items c)) <$>
       (RFMGrid.generateGridData scoreData !! key) =
     getGridData scoreData !! key) ∧
  (∀ key cell, RFMGrid.generateGridData scoreData !! key = Some cell →
     RFMGrid.isSelected cell = false).
Proof.
  rewrite RFMGrid_generateGridData. split.
  - intros key. rewrite lookup_fmap. by destruct (getGridData scoreData !! key) as [[] |].
  - intros key cell. rewrite lookup_fmap.
    destruct (getGridData scoreData !! key); intros; by simplify_eq/=.
Qed.

(** X11: which cells the effect marks.  After the effect, the cell [(a, b)]
    holds the items with these coordinates and their number, and it is
    marked as selected exactly when one of them has a selected id; an empty
    cell is never marked. *)
Theorem gridEffect_marks (scores : list RFMScore.t) (selectedIds : list string) a b :
  1 ≤ a ≤ 5 → 1 ≤ b ≤ 5 →
  ∃ cell,
    RFMGrid.gridEffect scores selectedIds !! cellKey a b = Some cell ∧
    RFMGrid.items cell = cellItems a b scores ∧
    RFMGrid.count cell = Z.of_nat (length (cellItems a b scores)) ∧
    (RFMGrid.isSelected cell = true ↔
       ∃ s, s ∈ scores ∧ RFMScore.x s = a ∧ RFMScore.y s = b ∧
            RFMScore.id s ∈ selectedIds) ∧
    (RFMGrid.count cell = 0 → RFMGrid.isSelected cell = false).
Proof.
  intros Ha Hb. eexists. split; [by apply gridEffect_cell |]. simpl.
  split; [done |]. split; [done |]. split.
  - rewrite existsb_includes. unfold cellItems.
    setoid_rewrite list_elem_of_filter. naive_solver.
  - intros Hcount. by destruct (cellItems a b scores).
Qed.

Lemma gridEffect_marks_witness :
  (1 ≤ 4 ≤ 5 ∧ 1 ≤ 5 ≤ 5) ∧
  ∃ cell,
    RFMGrid.gridEffect demoScores ["CUST_003"] !! cellKey 4 5 = Some cell ∧
    RFMGrid.count cell = 2.
Proof.
  assert (1 ≤ 4 ≤ 5) as H4 by lia. assert (1 ≤ 5 ≤ 5) as H5 by lia.
  split; [by split |].
  destruct (gridEffect_marks demoScores ["CUST_003"] 4 5 H4 H5)
    as (cell & Hcell & _ & Hcount & _).
  exists cell. split; [exact Hcell | exact Hcount].
Defined.

Lemma handleCellClick_cell scores selectedIds a b :
  1 ≤ a ≤ 5 → 1 ≤ b ≤ 5 → cellItems a b scores ≠ [] →
  RFMGrid.handleCellClick true (RFMGrid.gridEffect scores selectedIds)
    selectedIds (cellKey a b) =
  Some (foldl RFMGrid.toggle selectedIds (cellIds a b scores)).
Proof.
  intros Ha Hb Hne. unfold RFMGrid.handleCellClick.
  rewrite gridEffect_cell by done. cbn [negb RFMGrid.count RFMGrid.items].
  rewrite decide_False; [done |].
  destruct (cellItems a b scores); [done | simpl; lia].
Qed.

(** X12: clicks that change nothing.  The handler returns without calling
    [onSelectionChange] when the grid is not selectable, when the
    coordinates are outside [[1, 5]], and when the clicked cell is empty. *)
Theorem handleCellClick_ignored (scores : list RFMScore.t)
    (selectedIds : list string) a b :
  let grid := RFMGrid.gridEffect scores selectedIds in
  RFMGrid.handleCellClick false grid selectedIds (cellKey a b) = None ∧
  (¬ (1 ≤ a ≤ 5 ∧ 1 ≤ b ≤ 5) →
     RFMGrid.handleCellClick true grid selectedIds (cellKey a b) = None) ∧
  (cellItems a b scores = [] →
     RFMGrid.handleCellClick true grid selectedIds (cellKey a b) = None).
Proof.
  intros grid. subst grid. split; [done |]. split.
  - intros Hout. unfold RFMGrid.handleCellClick.
    by rewrite gridEffect_no_cell.
  - intros Hempty. unfold RFMGrid.handleCellClick. cbn [negb].
    destruct (decide (1 ≤ a ≤ 5 ∧ 1 ≤ b ≤ 5)) as [[Ha Hb] | Hout].
    + rewrite gridEffect_cell, Hempty by done. done.
    + by rewrite gridEffect_no_cell.
Qed.

(** X13: a click toggles the cell's customers.  When the ids of the clicked
    cell are distinct and so are the selected ids, the new selection has no
    duplicates and contains exactly the ids that were selected and are not
    in the cell, and the ids of the cell that were not selected. *)
Theorem handleCellClick_toggles (scores : list RFMScore.t)
    (selectedIds : list string) a b :
  1 ≤ a ≤ 5 → 1 ≤ b ≤ 5 → cellItems a b scores ≠ [] →
  NoDup (cellIds a b scores) → NoDup selectedIds →
  ∃ newSelectedIds,
    RFMGrid.handleCellClick true (RFMGrid.gridEffect scores selectedIds)
      selectedIds (cellKey a b) = Some newSelectedIds ∧
    NoDup newSelectedIds ∧
    ∀ id, id ∈ newSelectedIds ↔
          (id ∈ selectedIds ∧ id ∉ cellIds a b scores) ∨
          (id ∉ selectedIds ∧ id ∈ cellIds a b scores).
Proof.
  intros Ha Hb Hne Hids Hsel. eexists. split; [by apply handleCellClick_cell |].
  by apply foldl_toggle_spec.
Qed.


(** X15: a second click on the same cell undoes the first.  Under the same
    conditions, clicking the cell twice gives back the selected ids, up to
    their order. *)
Theorem handleCellClick_twice (scores : list RFMScore.t)
    (selectedIds : list string) a b :
  1 ≤ a ≤ 5 → 1 ≤ b ≤ 5 → cellItems a b scores ≠ [] →
  NoDup (cellIds a b scores) → NoDup selectedIds →
  ∃ once twice,
    RFMGrid.handleCellClick true (RFMGrid.gridEffect scores selectedIds)
      selectedIds (cellKey a b) = Some once ∧
    RFMGrid.handleCellClick true (RFMGrid.gridEffect scores once)
      once (cellKey a b) = Some twice ∧
    twice ≡ₚ selectedIds.
Proof.
  intros Ha Hb Hne Hids Hsel. eexists _, _.
  split; [by apply handleCellClick_cell |].
  split; [by apply handleCellClick_cell |].
  destruct (foldl_toggle_spec _ _ Hids Hsel) as [Hnd1 Hmem1].
  destruct (foldl_toggle_spec _ _ Hids Hnd1) as [Hnd2 Hmem2].
  apply NoDup_Permutation; [done | done |]. intros id.
  rewrite Hmem2, Hmem1.
  destruct (decide (id ∈ selectedIds)), (decide (id ∈ cellIds a b scores)); naive_solver.
Qed.

Lemma demo_cell_ids_NoDup : NoDup (cellIds 4 5 demoScores).
Proof. apply (bool_decide_unpack (NoDup (cellIds 4 5 demoScores))). by vm_compute. Qed.

Lemma demo_selection_NoDup : NoDup ["CUST_002"; "CUST_001"].
Proof. apply (bool_decide_unpack (NoDup ["CUST_002"; "CUST_001"])). by vm_compute. Qed.

Lemma handleCellClick_toggles_witness :
  (1 ≤ 4 ≤ 5 ∧ 1 ≤ 5 ≤ 5 ∧ cellItems 4 5 demoScores ≠ []) ∧
  ∃ newSelectedIds,
    RFMGrid.handleCellClick true
      (RFMGrid.gridEffect demoScores ["CUST_002"; "CUST_001"])
      ["CUST_002"; "CUST_001"] (cellKey 4 5) = Some newSelectedIds ∧
    NoDup newSelectedIds.
Proof.
  assert (1 ≤ 4 ≤ 5) as H4 by lia. assert (1 ≤ 5 ≤ 5) as H5 by lia.
  assert (cellItems 4 5 demoScores ≠ []) as Hne by done.
  split; [by repeat split |].
  destruct (handleCellClick_toggles demoScores ["CUST_002"; "CUST_001"] 4 5
              H4 H5 Hne demo_cell_ids_NoDup demo_selection_NoDup)
    as (new & Hclick & Hnd & _).
  exists new. split; [exact Hclick | exact Hnd].
Defined.


Lemma handleCellClick_twice_witness :
  (1 ≤ 4 ≤ 5 ∧ 1 ≤ 5 ≤ 5 ∧ cellItems 4 5 demoScores ≠ []) ∧
  ∃ once twice,
    RFMGrid.handleCellClick true
      (RFMGrid.gridEffect demoScores ["CUST_002"; "CUST_001"])
      ["CUST_002"; "CUST_001"] (cellKey 4 5) = Some once ∧
    RFMGrid.handleCellClick true (RFMGrid.gridEffect demoScores once)
      once (cellKey 4 5) = Some twice ∧
    twice ≡ₚ ["CUST_002"; "CUST_001"].
Proof.
  assert (1 ≤ 4 ≤ 5) as H4 by lia. assert (1 ≤ 5 ≤ 5) as H5 by lia.
  assert (cellItems 4 5 demoScores ≠ []) as Hne by done.
  split; [by repeat split |].
  exact (handleCellClick_twice demoScores ["CUST_002"; "CUST_001"] 4 5
           H4 H5 Hne demo_cell_ids_NoDup demo_selection_NoDup).
Defined.

(** A click on a cell that is selected in part inverts it: the selected id
    leaves, the other one enters, and the selection does not grow to the
    whole cell. *)
Example click_on_partly_selected_cell :
  RFMGrid.handleCellClick true
    (RFMGrid.gridEffect demoScores ["CUST_002"; "CUST_001"])
    ["CUST_002"; "CUST_001"] (cellKey 4 5) = Some ["CUST_002"; "CUST_003"].
Proof. by vm_compute. Qed.






(** * Further properties of the generator *)

Section GeneratorInvariant.
Variable P : RFMData.t → Prop.
Hypothesis P_base : ∀ id r f m,
  0 ≤ r < 365 → 0 ≤ f < 50 → 0 ≤ m < 9990 →
  P (RFMData.mk id (r + 1) (f + 1) (m + 10)).
Hypothesis P_vip : ∀ old f m,
  P old → 0 ≤ f < 20 → 0 ≤ m < 5000 →
  P (RFMData.mk (RFMData.id old) (RFMData.recency old) (f + 30) (m + 5000)).
Hypothesis P_inactive : ∀ old r f m,
  P old → 0 ≤ r < 100 → 0 ≤ f < 5 → 0 ≤ m < 500 →
  P (RFMData.mk (RFMData.id old) (r + 300) (f + 1) (m + 10)).

Lemma baseRecord_keeps i data src :
  1 ≤ i →
  RFMData.id <$> data = customerId <$> seqZ 1 (i - 1) → Forall P data →
  unitDraws src →
  runsTo (baseRecord i data) src (λ data',
    RFMData.id <$> data' = customerId <$> seqZ 1 (i + 1 - 1) ∧ Forall P data').
Proof.
  intros Hi Hids HP Hsrc. unfold baseRecord.
  eapply runsTo_bind; [by apply runsTo_randomBelow |]. intros r src1 Hr Hsrc1.
  eapply runsTo_bind; [by apply runsTo_randomBelow |]. intros f src2 Hf Hsrc2.
  eapply runsTo_bind; [by apply runsTo_randomBelow |]. intros m src3 Hm Hsrc3.
  apply runsTo_ret; [done |]. split.
  - rewrite fmap_app, Hids. replace (i + 1 - 1) with ((i - 1) + 1) by lia.
    rewrite seqZ_app by lia. rewrite fmap_app. f_equal.
    replace (1 + (i - 1)) with i by lia. done.
  - apply Forall_app. split; [done |]. constructor; [| done]. by apply P_base.
Qed.

Lemma overwriteAt_keeps ids data index update src :
  data ≠ [] → RFMData.id <$> data = ids → Forall P data → unitDraws src →
  0 ≤ index < Z.of_nat (length data) →
  (∀ r, RFMData.id (update r) = RFMData.id r) →
  (∀ r, P r → P (update r)) →
  runsTo (overwriteAt data index update) src (λ data',
    data' ≠ [] ∧ RFMData.id <$> data' = ids ∧ Forall P data').
Proof.
  intros Hne Hids HP Hsrc Hindex Hid Hupd. unfold overwriteAt.
  rewrite decide_True by lia.
  destruct (lookup_lt_is_Some_2 data (Z.to_nat index)) as [r Hr]; [lia |].
  rewrite Hr. apply runsTo_ret; [done |]. split; [| split].
  - intros Hnil. apply (f_equal length) in Hnil.
    rewrite length_insert in Hnil. by destruct data.
  - rewrite list_fmap_insert, Hid, <-Hids. apply list_insert_id.
    by rewrite list_lookup_fmap, Hr.
  - apply Forall_insert; [done |]. apply Hupd. by eapply Forall_lookup_1.
Qed.

Lemma generateMockRFMData_keeps count src :
  unitDraws src →
  runsTo (generateMockRFMData count) src (λ data,
    RFMData.id <$> data = customerId <$> seqZ 1 count ∧ Forall P data).
Proof.
  intros Hsrc. unfold generateMockRFMData.
  eapply runsTo_bind.
  { apply (runsTo_forLoop (λ i data, 1 ≤ i ∧
             RFMData.id <$> data = customerId <$> seqZ 1 (i - 1) ∧ Forall P data)).
    - intros i data src0 (Hi & Hids & HP) Hsrc0.
      eapply runsTo_weaken; [by apply baseRecord_keeps |].
      intros data' [? ?]. split; [lia | done].
    - split; [lia |]. split; [done | constructor].
    - done. }
  intros data src1 (_ & Hids & HP) Hsrc1. cbv beta in *.
  destruct (decide (count ≤ 0)) as [Hle | Hpos].
  { assert (count / 20 ≤ 0) by (apply Z.div_le_upper_bound; lia).
    assert (count / 10 ≤ 0) by (apply Z.div_le_upper_bound; lia).
    replace (Z.to_nat (count / 20)) with 0%nat by lia.
    replace (Z.to_nat (count / 10)) with 0%nat by lia.
    exists data, src1. split; [reflexivity |]. split; [| done].
    split; [| done]. rewrite Hids. by rewrite !seqZ_nil by lia. }
  replace (1 + Z.of_nat (Z.to_nat count) - 1) with count in Hids by lia.
  assert (data ≠ []) as Hne.
  { intros ->. apply (f_equal length) in Hids.
    rewrite !length_fmap, length_seqZ in Hids. simpl in Hids. lia. }
  pose (Inv := λ (_ : Z) (data : list RFMData.t),
    data ≠ [] ∧ RFMData.id <$> data = customerId <$> seqZ 1 count ∧ Forall P data).
  eapply runsTo_bind.
  { apply (runsTo_forLoop Inv); [| by repeat split | done].
    intros i d src0 (Hd & Hdi & HdP) Hsrc0. unfold vipOverwrite.
    pose proof (length_pos_of_ne_nil d Hd) as Hlen.
    eapply runsTo_bind; [by apply runsTo_randomBelow |]. intros index src2 Hindex Hsrc2.
    eapply runsTo_bind; [by apply runsTo_randomBelow |]. intros f src3 Hf Hsrc3.
    eapply runsTo_bind; [by apply runsTo_randomBelow |]. intros m src4 Hm Hsrc4.
    apply overwriteAt_keeps; try done. intros r Hr. by apply P_vip. }
  intros data2 src2 Hinv2 Hsrc2.
  eapply runsTo_weaken.
  { apply (runsTo_forLoop Inv); [| exact Hinv2 | done].
    intros i d src0 (Hd & Hdi & HdP) Hsrc0. unfold inactiveOverwrite.
    pose proof (length_pos_of_ne_nil d Hd) as Hlen.
    eapply runsTo_bind; [by apply runsTo_randomBelow |]. intros index src3 Hindex Hsrc3.
    eapply runsTo_bind; [by apply runsTo_randomBelow |]. intros r src4 Hr Hsrc4.
    eapply runsTo_bind; [by apply runsTo_randomBelow |]. intros f src5 Hf Hsrc5.
    eapply runsTo_bind; [by apply runsTo_randomBelow |]. intros m src6 Hm Hsrc6.
    apply overwriteAt_keeps; try done. intros old Hold. by apply P_inactive. }
  by intros d (_ & ? & ?).
Qed.

End GeneratorInvariant.

(** X17: a count of zero or less.  The generator then returns the empty
    array, and it has not called [Math.random] at all; no error is raised. *)
Theorem generateMockRFMData_nonpositive (count : Z) (src : RandomSource) :
  count ≤ 0 → generateMockRFMData count src = Some ([], src).
Proof.
  intros Hle. unfold generateMockRFMData.
  assert (count / 20 ≤ 0) by (apply Z.div_le_upper_bound; lia).
  assert (count / 10 ≤ 0) by (apply Z.div_le_upper_bound; lia).
  replace (Z.to_nat count) with 0%nat by lia.
  replace (Z.to_nat (count / 20)) with 0%nat by lia.
  replace (Z.to_nat (count / 10)) with 0%nat by lia.
  reflexivity.
Qed.

Lemma generateMockRFMData_nonpositive_witness :
  -3 ≤ 0 ∧ generateMockRFMData (-3) demoSource = Some ([], demoSource).
Proof.
  assert (-3 ≤ 0) as Hle by lia.
  split; [exact Hle | exact (generateMockRFMData_nonpositive (-3) demoSource Hle)].
Defined.

(** X18: the values the generator really produces.  Whatever the count and
    the draws, every record has its recency between 1 and 399, its
    frequency between 1 and 50 and its monetary value between 10 and 9999:
    the values 400 and 10000, the upper ends named in the comments of the
    source, never occur. *)
Theorem generateMockRFMData_produced (count : Z) (src : RandomSource) :
  unitDraws src →
  ∃ data src',
    generateMockRFMData count src = Some (data, src') ∧
    Forall recordProduced data ∧
    Forall (λ r, RFMData.recency r ≠ 400 ∧ RFMData.monetary r ≠ 10000) data.
Proof.
  intros Hsrc.
  destruct (generateMockRFMData_keeps recordProduced) with (count := count) (src := src)
    as (data & src' & Hrun & [_ HP] & _); try done.
  - intros id r f m ???. unfold recordProduced. simpl. lia.
  - intros old f m (? & ? & ?) ??. unfold recordProduced. simpl. lia.
  - intros old r f m _ ???. unfold recordProduced. simpl. lia.
  - exists data, src'. split; [done |]. split; [done |].
    eapply Forall_impl; [exact HP |]. unfold recordProduced. intros r. lia.
Qed.

Lemma generateMockRFMData_produced_witness :
  unitDraws demoSource ∧
  ∃ data src',
    generateMockRFMData 25 demoSource = Some (data, src') ∧
    Forall recordProduced data.
Proof.
  split; [exact demoSource_unitDraws |].
  destruct (generateMockRFMData_produced 25 demoSource demoSource_unitDraws)
    as (data & src' & Hrun & HP & _).
  exists data, src'. split; [exact Hrun | exact HP].
Defined.

Lemma calculateRFMScores_ids data :
  RFMScore.id <$> calculateRFMScores data = RFMData.id <$> data.
Proof.
  rewrite calculateRFMScores_scoreRecord, <-list_fmap_compose.
  by apply list_fmap_ext.
Qed.

Lemma generateMockRFMData_ids count src :
  unitDraws src →
  ∃ data src',
    generateMockRFMData count src = Some (data, src') ∧
    RFMData.id <$> data = customerId <$> seqZ 1 count ∧ unitDraws src'.
Proof.
  intros Hsrc.
  destruct (generateMockRFMData_keeps (λ _, True)) with (count := count) (src := src)
    as (data & src' & Hrun & [Hids _] & Hsrc'); try done.
  by exists data, src'.
Qed.

(** X19: generate, score, filter, bucket.  Whatever the count and the draws,
    scoring the generated dataset gives one scored customer per generated
    record, with the ids of the customers 1, 2, ..., [count] in order and
    without duplicates; the default criteria 1, 1, 1 keep all of them; and
    the 25 counts of their grid add up to their number. *)
Theorem generate_score_filter_grid (count : Z) (src : RandomSource) :
  unitDraws src →
  ∃ data src',
    generateMockRFMData count src = Some (data, src') ∧
    let scores := calculateRFMScores data in
    length scores = Z.to_nat count ∧
    RFMScore.id <$> scores = customerId <$> seqZ 1 count ∧
    NoDup (RFMScore.id <$> scores) ∧
    filterRFMScores scores (Filters.mk (Some 1) (Some 1) (Some 1)) = scores ∧
    totalCount (getGridData scores) = Z.of_nat (length scores).
Proof.
  intros Hsrc.
  destruct (generateMockRFMData_ids count src Hsrc) as (data & src' & Hrun & Hids & _).
  exists data, src'. split; [done |]. intros scores. subst scores.
  pose proof (calculateRFMScores_in_range data) as [Hrange Hgrid].
  rewrite calculateRFMScores_ids, Hids.
  split; [| split; [done | split; [apply customerId_NoDup | split]]].
  - apply (f_equal length) in Hids.
    rewrite !length_fmap, length_seqZ in Hids.
    unfold calculateRFMScores. rewrite length_map. lia.
  - rewrite filterRFMScores_meetsCriteria by done. apply filter_all.
    eapply Forall_impl; [exact Hrange |].
    unfold scoresInRange, meetsCriteria. intros s. lia.
  - rewrite totalCount_getGridData. by rewrite filter_all.
Qed.

Lemma generate_score_filter_grid_witness :
  unitDraws demoSource ∧
  ∃ data src',
    generateMockRFMData 25 demoSource = Some (data, src') ∧
    length (calculateRFMScores data) = 25%nat.
Proof.
  split; [exact demoSource_unitDraws |].
  destruct (generate_score_filter_grid 25 demoSource demoSource_unitDraws)
    as (data & src' & Hrun & Hlen & _).
  exists data, src'. split; [exact Hrun | exact Hlen].
Defined.

(** * The endpoint *)

Lemma stringsOf_strings ids : Route.stringsOf (Route.JString <$> ids) = ids.
Proof.
  unfold Route.stringsOf. induction ids as [| id ids IH]; [done |].
  csimpl. by rewrite IH.
Qed.

Lemma forallb_isString elements :
  forallb Route.isString elements = true →
  ∃ ids, elements = Route.JString <$> ids.
Proof.
  induction elements as [| v elements IH]; [by exists [] |].
  simpl. intros [Hv Hrest]%andb_true_iff.
  destruct (IH Hrest) as (ids & ->). destruct v; try done.
  by exists (s :: ids).
Qed.

Lemma forallb_isString_strings ids :
  forallb Route.isString (Route.JString <$> ids) = true.
Proof. induction ids as [| id ids IH]; [done |]. csimpl. by rewrite IH. Qed.

Lemma POST_cases request :
  (Route.POST request = Route.failure 500 "Internal server error" ∧
   (request = None ∨ request = Some Route.JNull)) ∨
  (∃ body, request = Some body ∧ body ≠ Route.JNull ∧
     Route.isArray (Route.getSelectedIds body) = false ∧
     Route.POST request =
       Route.failure 400 "Invalid request: selectedIds must be an array") ∨
  (∃ body elements, request = Some body ∧
     Route.getSelectedIds body = Some (Route.JArray elements) ∧
     forallb Route.isString elements = false ∧
     Route.POST request =
       Route.failure 400 "Invalid request: all selectedIds must be strings") ∨
  (∃ properties ids, request = Some (Route.JObject properties) ∧
     properties !! "selectedIds" = Some (Route.JArray (Route.JString <$> ids)) ∧
     Route.POST request =
       Route.mkResponse 200 true
         ("Successfully processed " +:+ pretty (Z.of_nat (length ids)) +:+
          " selected customer(s)")
         (Z.of_nat (length ids)) ids).
Proof.
  destruct request as [body |]; [| left; by eauto].
  destruct body as [| b | n | str | elements | properties]; [left; by eauto | ..].
  1-4: right; left; eexists; by repeat split.
  right.
  destruct (properties !! "selectedIds") as [v |] eqn:Hget.
  2: { left. exists (Route.JObject properties).
       cbn [Route.POST Route.getSelectedIds]. rewrite Hget. by repeat split. }
  destruct v as [| b | n | str | elements | props].
  1-4, 6: left; exists (Route.JObject properties);
          cbn [Route.POST Route.getSelectedIds]; rewrite Hget;
          cbn [Route.isArray negb]; rewrite orb_true_r; by repeat split.
  right.
  destruct (forallb Route.isString elements) eqn:Hall.
  - right. destruct (forallb_isString _ Hall) as (ids & ->).
    exists properties, ids. split; [done |]. split; [done |].
    cbn [Route.POST Route.getSelectedIds]. rewrite Hget.
    cbn [Route.truthy Route.isArray Route.elementsOf negb orb].
    by rewrite Hall, stringsOf_strings.
  - left. exists (Route.JObject properties), elements.
    split; [done |]. split; [done |]. split; [done |].
    cbn [Route.POST Route.getSelectedIds]. rewrite Hget.
    cbn [Route.truthy Route.isArray Route.elementsOf negb orb].
    by rewrite Hall.
Qed.

(** X20: the shape of every response.  Whatever the request, the status is
    200, 400 or 500; [success] is true exactly for 200; a response that is
    not a success carries the count 0 and no ids; and the count is always
    the number of ids in the response. *)
Theorem POST_response_shape (request : option Route.json) :
  let response := Route.POST request in
  (Route.status response = 200 ∨ Route.status response = 400 ∨
   Route.status response = 500) ∧
  (Route.success response = true ↔ Route.status response = 200) ∧
  (Route.status response ≠ 200 →
     Route.count response = 0 ∧ Route.selectedIds response = []) ∧
  Route.count response = Z.of_nat (length (Route.selectedIds response)).
Proof.
  intros response. subst response.
  destruct (POST_cases request)
    as [[-> _] | [(? & _ & _ & _ & ->) | [(? & ? & _ & _ & _ & ->) | (? & ? & _ & _ & ->)]]];
    simpl; repeat split; auto; try lia; try done.
Qed.

(** X21: what the endpoint accepts.  The response is a success exactly when
    the body is an object whose [selectedIds] is an array of strings,
    whatever else the object holds; the response then gives the ids back in
    their order, their number as count, and that number in the message.  An
    empty array is accepted. *)
Theorem POST_accepts (request : option Route.json) :
  (Route.status (Route.POST request) = 200 ↔
   ∃ properties ids,
     request = Some (Route.JObject properties) ∧
     properties !! "selectedIds" = Some (Route.JArray (Route.JString <$> ids))) ∧
  (∀ properties ids,
     request = Some (Route.JObject properties) →
     properties !! "selectedIds" = Some (Route.JArray (Route.JString <$> ids)) →
     Route.POST request =
       Route.mkResponse 200 true
         ("Successfully processed " +:+ pretty (Z.of_nat (length ids)) +:+
          " selected customer(s)")
         (Z.of_nat (length ids)) ids).
Proof.
  assert (∀ properties ids,
     request = Some (Route.JObject properties) →
     properties !! "selectedIds" = Some (Route.JArray (Route.JString <$> ids)) →
     Route.POST request =
       Route.mkResponse 200 true
         ("Successfully processed " +:+ pretty (Z.of_nat (length ids)) +:+
          " selected customer(s)")
         (Z.of_nat (length ids)) ids) as Hok.
  { intros properties ids -> Hget. unfold Route.POST.
    cbn [Route.getSelectedIds]. rewrite Hget.
    cbn [Route.truthy Route.isArray Route.elementsOf negb orb].
    by rewrite forallb_isString_strings, stringsOf_strings. }
  split; [| exact Hok]. split.
  - intros Hstatus.
    destruct (POST_cases request)
      as [[Heq _] | [(? & _ & _ & _ & Heq) | [(? & ? & _ & _ & _ & Heq) | Hacc]]];
      try (rewrite Heq in Hstatus; simpl in Hstatus; lia).
    destruct Hacc as (properties & ids & ? & ? & _). eauto.
  - intros (properties & ids & Hreq & Hget). by rewrite (Hok _ _ Hreq Hget).
Qed.

(** X22: what the endpoint refuses.  The status is 500 exactly when the body
    is not JSON or is [null]; any other body whose [selectedIds] is missing
    or is not an array (be it a truthy string or number) gets 400 with the
    message about the array; and an array with an element that is not a
    string gets 400 with the message about the strings. *)
Theorem POST_refuses (request : option Route.json) :
  (Route.status (Route.POST request) = 500 ↔
   request = None ∨ request = Some Route.JNull) ∧
  (∀ body, request = Some body → body ≠ Route.JNull →
     Route.isArray (Route.getSelectedIds body) = false →
     Route.POST request =
       Route.failure 400 "Invalid request: selectedIds must be an array") ∧
  (∀ body elements, request = Some body →
     Route.getSelectedIds body = Some (Route.JArray elements) →
     forallb Route.isString elements = false →
     Route.POST request =
       Route.failure 400 "Invalid request: all selectedIds must be strings").
Proof.
  split; [| split].
  - split.
    + intros Hstatus.
      destruct (POST_cases request)
        as [[_ ?] | [(? & _ & _ & _ & Heq) | [(? & ? & _ & _ & _ & Heq) | (? & ? & _ & _ & Heq)]]];
        [done | ..]; rewrite Heq in Hstatus; simpl in Hstatus; lia.
    + by intros [-> | ->].
  - intros body -> Hnull Harr. unfold Route.POST. rewrite Harr, orb_true_r.
    by destruct body.
  - intros body elements -> Hget Hall. unfold Route.POST. rewrite Hget.
    cbn [Route.truthy Route.isArray Route.elementsOf negb orb]. rewrite Hall.
    by destruct body.
Qed.

(** A body that is a string, and an object whose [selectedIds] is a string,
    are refused with 400, not 500. *)
Example POST_string_bodies :
  Route.status (Route.POST (Some (Route.JString "CUST_001"))) = 400 ∧
  Route.status (Route.POST (Some (Route.JObject
    {[ "selectedIds" := Route.JString "CUST_001" ]}))) = 400.
Proof. by vm_compute. Qed.

Lemma requestBody_selectedIds ids :
  Route.getSelectedIds (Page.requestBody ids) =
  Some (Route.JArray (Route.JString <$> ids)).
Proof. unfold Page.requestBody. cbn [Route.getSelectedIds]. apply lookup_singleton_eq. Qed.

(** X23: submitting from the page.  With nothing selected the page sends no
    request; otherwise it sends the selected ids, and the endpoint answers
    with the status 200, these ids in the same order and their number.  The
    check for an empty selection is the page's alone: the endpoint would
    accept the empty list with the count 0. *)
Theorem submit_selected_ids (st : Page.State) :
  (Page.selectedIds st = [] → Page.handleSubmitSelectedIds st = None) ∧
  (Page.selectedIds st ≠ [] →
     Page.handleSubmitSelectedIds st = Some (Page.selectedIds st)) ∧
  (∀ ids, Page.handleSubmitSelectedIds st = Some ids →
     let response := Route.POST (Some (Page.requestBody ids)) in
     Route.status response = 200 ∧ Route.success response = true ∧
     Route.selectedIds response = Page.selectedIds st ∧
     Route.count response = Z.of_nat (length (Page.selectedIds st))) ∧
  Route.status (Route.POST (Some (Page.requestBody []))) = 200.
Proof.
  unfold Page.handleSubmitSelectedIds. split; [| split; [| split]].
  - intros ->. done.
  - intros Hne. rewrite decide_False; [done |].
    destruct (Page.selectedIds st); [done | simpl; lia].
  - intros ids Hsubmit. case_decide; [done |]. simplify_eq.
    unfold Page.requestBody, Route.POST. cbn [Route.getSelectedIds].
    rewrite lookup_singleton_eq.
    cbn [Route.truthy Route.isArray Route.elementsOf negb orb].
    by rewrite forallb_isString_strings, stringsOf_strings.
  - by vm_compute.
Qed.

(** * The page *)











(** X26: new data are shown unfiltered.  [generateNewData] keeps the
    criteria of the page but displays every new customer and clears the
    selection, while [handleFiltersChange] displays the filter of the
    scores; so the page can reach a state in which the displayed customers
    are not the filter of its scores under its own criteria. *)
Theorem generateNewData_shows_all :
  (∀ count st src st' src',
     Page.generateNewData count st src = Some (st', src') →
     Page.filters st' = Page.filters st ∧
     Page.filteredScores st' = Page.rfmScores st' ∧
     Page.selectedIds st' = []) ∧
  (∀ newFilters st,
     let st' := Page.handleFiltersChange newFilters st in
     Page.filteredScores st' =
     filterRFMScores (Page.rfmScores st') (Page.criteria (Page.filters st'))) ∧
  ∃ st,
    Page.reachable st ∧
    Page.filteredScores st ≠
    filterRFMScores (Page.rfmScores st) (Page.criteria (Page.filters st)).
Proof.
  split; [| split].
  - intros count st src st' src'. unfold Page.generateNewData, bind, ret.
    destruct (generateMockRFMData count src) as [[data src1] |]; [| done].
    intros. by simplify_eq.
  - done.
  - pose (st1 := Page.handleFiltersChange (Page.mkFilters 5 5 5) Page.initial).
    assert (∃ st2 src2,
      Page.generateNewData 3 st1 demoSource = Some (st2, src2) ∧
      length (Page.filteredScores st2) = 3%nat ∧
      (length (filterRFMScores (Page.rfmScores st2)
                 (Page.criteria (Page.filters st2))) < 3)%nat)
      as (st2 & src2 & Hgen & Hshown & Hfiltered).
    { eexists _, _. split; [by vm_compute |]. split; vm_compute; lia. }
    exists st2. split.
    + eapply rtc_r; [apply rtc_once, Page.step_filters |].
      eapply Page.step_generate; [apply demoSource_unitDraws | exact Hgen].
    + intros Heq. rewrite <-Heq in Hfiltered. lia.
Qed.



(** X28: the colour of a cell by its count.  For a count that is not
    negative, the cell is grey exactly when it is empty, and takes the four
    blues exactly for 1 to 2, 3 to 5, 6 to 10 and 11 or more customers: a
    cell of exactly 10 customers has the colour the legend labels "6-10",
    not the one it labels "10+". *)
Theorem getCellColor_ranges (count : Z) :
  0 ≤ count →
  (RFMGrid.getCellColor count = "bg-gray-100 dark:bg-gray-800" ↔ count = 0) ∧
  (RFMGrid.getCellColor count = "bg-blue-200 dark:bg-blue-800" ↔ 1 ≤ count ≤ 2) ∧
  (RFMGrid.getCellColor count = "bg-blue-300 dark:bg-blue-700" ↔ 3 ≤ count ≤ 5) ∧
  (RFMGrid.getCellColor count = "bg-blue-400 dark:bg-blue-600" ↔ 6 ≤ count ≤ 10) ∧
  (RFMGrid.getCellColor count = "bg-blue-500 dark:bg-blue-500" ↔ 11 ≤ count).
Proof.
  intros Hcount. unfold RFMGrid.getCellColor.
  repeat case_decide; repeat split; intros; try done; try lia.
Qed.

Lemma getCellColor_ranges_witness :
  0 ≤ 10 ∧ RFMGrid.getCellColor 10 = "bg-blue-400 dark:bg-blue-600".
Proof.
  assert (0 ≤ 10) as H by lia. split; [exact H |].
  apply (proj1 (proj2 (proj2 (proj2 (getCellColor_ranges 10 H))))). lia.
Defined.
